(** * Asset-root discovery and resource lifecycle of the SDL2/OpenGL/OpenAL demo

    A shallow embedding of [programming-fun/main.cpp]: the upward walk of
    [try_get_asset_path], the memoised [get_base_path], the audio format
    mapping [get_openal_format], and the acquisition and release sequence of
    [Application] and [Demo], with the calls into SDL, OpenGL, OpenAL, ImGui
    and the decoders recorded in a trace. *)

From Stdlib Require Import String List ZArith Bool Arith Lia.
Import ListNotations.

Open Scope string_scope.
Open Scope list_scope.

(* ================================================================== *)
(** * [std::filesystem] as the program uses it *)
(* ================================================================== *)

Module Fs.

(** [std::filesystem::absolute] is the one operation whose result differs
    between the standard libraries the program is built with.  With the
    Microsoft library (the Visual Studio build) it is [GetFullPathNameW],
    which also removes ["."] and [".."] lexically; with libstdc++ and libc++
    on POSIX (the Emscripten build among them) it only prefixes the current
    directory to a relative path and leaves ["."] and [".."] in place. *)
Inductive platform : Type := Posix | Windows.

(** A path is its root path (root name and root directory, [None] for a
    relative path) followed by its file names.  A trailing separator, which
    [operator/] absorbs, is not represented. *)
Record path : Type := mkpath {
  root : option string;
  names : list string
}.

Definition path_eq_dec (p q : path) : {p = q} + {p <> q}.
Proof.
  decide equality.
  - apply (list_eq_dec string_dec).
  - decide equality. apply string_dec.
Defined.

(** [operator==] on paths compares the lexical representations only. *)
Definition path_eqb (p q : path) : bool :=
  if path_eq_dec p q then true else false.

(** [p.root_path()] *)
Definition root_path (p : path) : path := mkpath (root p) [].

(** [p / name] for a single relative file name. *)
Definition append (p : path) (name : string) : path :=
  mkpath (root p) (names p ++ [name]).

Notation "p // n" := (append p n) (at level 40, left associativity).

(** The part of the file system the program reads: one volume, the current
    directory (as the names below the volume's root) and the set of
    existing directories, each given by its names below the root.  There
    are no symbolic links. *)
Record filesystem : Type := mkfs {
  volume : string;
  cwd : list string;
  dirs : list string -> bool
}.

(** [fs::current_path()] *)
Definition current_path (fs : filesystem) : path :=
  mkpath (Some (volume fs)) (cwd fs).

(** Lexical removal of ["."] and [".."], as [GetFullPathNameW] does it: the
    parent of the root is the root.  [acc] is the result so far, last name
    first. *)
Fixpoint collapse (acc : list string) (ns : list string) : list string :=
  match ns with
  | [] => rev acc
  | n :: ns' =>
      if n =? "." then collapse acc ns'
      else if n =? ".." then collapse (tl acc) ns'
      else collapse (n :: acc) ns'
  end.

(** [fs::absolute(p)] *)
Definition absolute (pl : platform) (fs : filesystem) (p : path) : path :=
  match pl with
  | Posix =>
      match root p with
      | Some _ => p
      | None => mkpath (Some (volume fs)) (cwd fs ++ names p)
      end
  | Windows =>
      match root p with
      | Some r => mkpath (Some r) (collapse [] (names p))
      | None => mkpath (Some (volume fs)) (collapse [] (cwd fs ++ names p))
      end
  end.

(** Path resolution by the operating system, one name at a time: every
    directory passed through has to exist, [".."] steps to the parent, and
    the parent of the root is the root.  [cur] is the directory reached so
    far, last name first. *)
Fixpoint resolve (fs : filesystem) (cur : list string) (ns : list string)
  : option (list string) :=
  match ns with
  | [] => if dirs fs (rev cur) then Some (rev cur) else None
  | n :: ns' =>
      if dirs fs (rev cur) then
        if n =? "." then resolve fs cur ns'
        else if n =? ".." then resolve fs (tl cur) ns'
        else resolve fs (n :: cur) ns'
      else None
  end.

(** The names a path stands for below the root of the volume: [None] for a
    path on another volume. *)
Definition from_root (fs : filesystem) (p : path) : option (list string) :=
  match root p with
  | None => Some (cwd fs ++ names p)
  | Some r => if r =? volume fs then Some (names p) else None
  end.

(** [fs::is_directory(p)].  Windows normalises the path lexically before it
    looks it up; POSIX resolves it name by name. *)
Definition is_directory (pl : platform) (fs : filesystem) (p : path) : bool :=
  match from_root fs p with
  | None => false
  | Some ns =>
      match pl with
      | Posix => match resolve fs [] ns with Some _ => true | None => false end
      | Windows => dirs fs (collapse [] ns)
      end
  end.

(** ** [try_get_asset_path]

    The [do ... while] loop, one iteration per unit of [fuel]; [None] when
    the fuel is used up before the loop has left. *)
Fixpoint walk (pl : platform) (fs : filesystem) (root : path)
              (fuel : nat) (p : path) : option (option path) :=
  match fuel with
  | O => None
  | S fuel' =>
      let assets_folder := absolute pl fs (p // "assets") in
      if is_directory pl fs assets_folder then Some (Some assets_folder)
      else
        let p' := absolute pl fs (p // "..") in
        if negb (path_eqb (absolute pl fs p') root)
        then walk pl fs root fuel' p'
        else Some None
  end.

Definition try_get_asset_path (pl : platform) (fs : filesystem) (fuel : nat)
                              (starting_directory : path)
  : option (option path) :=
  let p := starting_directory in
  let root := root_path p in
  walk pl fs root fuel p.

(** The absolute path with the given names on the volume of [fs]. *)
Definition at_root (fs : filesystem) (ns : list string) : path :=
  mkpath (Some (volume fs)) ns.

(** A name other than ["."] and [".."]. *)
Definition plain (n : string) : bool := negb (n =? ".") && negb (n =? "..").

(** A directory given by plain names only, as [fs::current_path()] is. *)
Definition normal (d : list string) : bool := forallb plain d.

(** The directory [k] parent-traversals above [d]; the parent of the root
    is the root. *)
Definition ancestor (d : list string) (k : nat) : list string :=
  rev (skipn k (rev d)).

(** The path [try_get_asset_path] returns for the [assets] child of the
    [k]-th ancestor of [d]: POSIX spells it with the [".."] left in. *)
Definition nearest_assets (pl : platform) (fs : filesystem)
                          (d : list string) (k : nat) : path :=
  at_root fs (match pl with
              | Windows => ancestor d k ++ ["assets"]
              | Posix => d ++ repeat ".." k ++ ["assets"]
              end).

(** A directory tree given by the list of its directories. *)
Definition tree (ds : list (list string)) : list string -> bool :=
  fun d => if in_dec (list_eq_dec string_dec) d ds then true else false.

End Fs.

(* ================================================================== *)
(** * The audio format mapping *)
(* ================================================================== *)

Module Audio.

Local Open Scope Z_scope.

(** Constants of [SDL_audio.h] and [al.h].  [AUDIO_S16SYS] and
    [AUDIO_F32SYS] are the little-endian formats on the targets the project
    is built for (x86 Windows, WebAssembly). *)
Definition AUDIO_U8 : Z := 0x0008.
Definition AUDIO_S16LSB : Z := 0x8010.
Definition AUDIO_F32LSB : Z := 0x8120.
Definition AUDIO_S16SYS : Z := AUDIO_S16LSB.
Definition AUDIO_F32SYS : Z := AUDIO_F32LSB.

Definition AL_NONE : Z := 0.
Definition AL_FORMAT_MONO8 : Z := 0x1100.
Definition AL_FORMAT_MONO16 : Z := 0x1101.
Definition AL_FORMAT_STEREO8 : Z := 0x1102.
Definition AL_FORMAT_STEREO16 : Z := 0x1103.

(** The fields of [SDL_AudioSpec] the program reads. *)
Record SDL_AudioSpec : Type := mkspec {
  freq : Z;
  format : Z;
  channels : Z
}.

(** What the OpenAL backend answers to [alIsExtensionPresent] and
    [alGetEnumValue]. *)
Record backend : Type := mkbackend {
  AL_EXT_FLOAT32 : bool;
  AL_FORMAT_MONO_FLOAT32 : Z;
  AL_FORMAT_STEREO_FLOAT32 : Z
}.

Definition get_openal_format (al : backend) (spec : SDL_AudioSpec) : Z :=
  if (channels spec =? 1) && (format spec =? AUDIO_U8) then AL_FORMAT_MONO8
  else if (channels spec =? 1) && (format spec =? AUDIO_S16SYS) then AL_FORMAT_MONO16
  else if (channels spec =? 2) && (format spec =? AUDIO_U8) then AL_FORMAT_STEREO8
  else if (channels spec =? 2) && (format spec =? AUDIO_S16SYS) then AL_FORMAT_STEREO16
  else if (channels spec =? 1) && (format spec =? AUDIO_F32SYS) then
    if AL_EXT_FLOAT32 al then AL_FORMAT_MONO_FLOAT32 al else AL_NONE
  else if (channels spec =? 2) && (format spec =? AUDIO_F32SYS) then
    if AL_EXT_FLOAT32 al then AL_FORMAT_STEREO_FLOAT32 al else AL_NONE
  else AL_NONE.

(** The four combinations the specification calls standard. *)
Definition standard (spec : SDL_AudioSpec) : bool :=
  ((channels spec =? 1) || (channels spec =? 2))
  && ((format spec =? AUDIO_U8) || (format spec =? AUDIO_S16SYS)).

End Audio.

(* ================================================================== *)
(** * The program's effects *)
(* ================================================================== *)

Module Eff.

Import Fs.

Definition ptr : Type := Z.
Definition nullptr : ptr := 0%Z.

(** The calls into SDL, GLEW, OpenGL, OpenAL, ImGui, the decoders and the C
    library, with the arguments and results the program's control flow or
    its resources depend on. *)
Inductive call : Type :=
| SDL_Init (result : Z)
| SDL_GL_SetAttribute (attr : string) (value : Z)
| SDL_CreateWindow (title : string) (w h : Z) (result : ptr)
| SDL_GL_CreateContext (window : ptr) (result : ptr)
| SDL_GL_MakeCurrent (window context : ptr)
| glewInit (result : Z)
| SDL_GL_SetSwapInterval (interval : Z)
| SDL_GetWindowSize (window : ptr)
| ImGui_CreateContext
| ImGui_ImplSDL2_InitForOpenGL (window context : ptr)
| ImGui_ImplOpenGL3_Init
| alcOpenDevice (result : ptr)
| alcCreateContext (device : ptr) (result : ptr)
| alcMakeContextCurrent (context : ptr)
| glViewport (w h : Z)
| glClearColor
| glClear
| fs_current_path
| SDL_GetBasePath
| SDL_free
| stbi_load (filename : path) (loaded : bool)
| glGenTextures (result : Z)
| glBindTexture (texture : Z)
| glTexParameteri (pname param : string)
| glTexImage2D (w h : Z)
| stbi_image_free
| alGenBuffers (n : Z) (buffers : Z * Z)
| alGenSources (n : Z) (sources : Z * Z)
| SDL_LoadWAV (file : path) (loaded : bool)
| alBufferData (buffer fmt size frequency : Z)
| SDL_FreeWAV
| alSourcei_AL_BUFFER (source buffer : Z)
| stb_vorbis_decode_filename (file : path) (samples : Z)
| free
| glDeleteTextures (texture : Z)
| alDeleteSources (n : Z) (sources : Z * Z)
| alDeleteBuffers (n : Z) (buffers : Z * Z)
| alcDestroyContext (context : ptr)
| alcCloseDevice (device : ptr)
| ImGui_ImplOpenGL3_Shutdown
| ImGui_ImplSDL2_Shutdown
| ImGui_DestroyContext
| SDL_GL_DeleteContext (context : ptr)
| SDL_DestroyWindow (window : ptr)
| SDL_Quit
| SDL_PollEvent
| ImGui_ImplSDL2_ProcessEvent
| ImGui_ImplOpenGL3_NewFrame
| ImGui_ImplSDL2_NewFrame
| ImGui_NewFrame
| ImGui_Begin (name : string)
| ImGui_Text (fmt : string) (args : list Z)
| ImGui_Text_s (text : string)
| ImGui_Image (texture w h : Z)
| ImGui_End
| ImGui_Button (label : string) (pressed : bool)
| ImGui_SameLine
| alSourcePlay (source : Z)
| ImGui_Render
| ImGui_ImplOpenGL3_RenderDrawData
| ImGui_UpdatePlatformWindows
| ImGui_RenderPlatformWindowsDefault
| SDL_GL_SwapWindow (window : ptr).

(** The state outside the [Application] object: the calls made so far
    (oldest first), what was written to [std::cerr], the two globals, and
    the function-local static of [get_base_path] ([None] until its
    initialisation has completed). *)
Record world : Type := mkworld {
  trace : list call;
  cerr : list string;
  gWindowWidth : Z;
  gWindowHeight : Z;
  assets_folder : option path
}.

Definition initial_world : world := mkworld [] [] 640 480 None.

(** How a computation ends: it returns, it throws a [std::exception] with
    the given [what()], or the fuel of the upward walk ran out. *)
Inductive outcome (A : Type) : Type :=
| Returns (a : A)
| Throws (what : string)
| OutOfFuel.
Arguments Returns {A} a.
Arguments Throws {A} what.
Arguments OutOfFuel {A}.

Definition M (A : Type) : Type := world -> outcome A * world.

Definition ret {A} (a : A) : M A := fun w => (Returns a, w).

Definition bind {A B} (c : M A) (k : A -> M B) : M B :=
  fun w =>
    match c w with
    | (Returns a, w') => k a w'
    | (Throws what, w') => (Throws what, w')
    | (OutOfFuel, w') => (OutOfFuel, w')
    end.

Notation "x <- c ;; k" := (bind c (fun x => k))
  (at level 61, c at next level, right associativity).
Notation "c ;; k" := (bind c (fun _ => k))
  (at level 61, right associativity).

Definition emit (c : call) : M unit :=
  fun w => (Returns tt,
            mkworld (trace w ++ [c]) (cerr w) (gWindowWidth w) (gWindowHeight w)
                    (assets_folder w)).

Definition throw {A} (what : string) : M A := fun w => (Throws what, w).

Definition out_of_fuel {A} : M A := fun w => (OutOfFuel, w).

Definition print_cerr (s : string) : M unit :=
  fun w => (Returns tt,
            mkworld (trace w) (cerr w ++ [s]) (gWindowWidth w) (gWindowHeight w)
                    (assets_folder w)).

Definition set_window_size (wh : Z * Z) : M unit :=
  fun w => (Returns tt,
            mkworld (trace w) (cerr w) (fst wh) (snd wh) (assets_folder w)).

Definition set_assets_folder (p : path) : M unit :=
  fun w => (Returns tt,
            mkworld (trace w) (cerr w) (gWindowWidth w) (gWindowHeight w) (Some p)).

Definition get_world : M world := fun w => (Returns w, w).

(** [throw_error_message]: the message goes to [std::cerr] and is thrown as
    a [std::runtime_error]. *)
Definition throw_error_message {A} (message : string) : M A :=
  print_cerr message ;; throw message.

(** [emits_from I c Q]: from every world in [I], [c] leaves the calls already
    made in place and ends in [I], and its outcome together with the calls
    it adds satisfy [Q]. *)
Definition emits_from {A} (I : world -> Prop) (c : M A)
                      (Q : outcome A -> list call -> Prop) : Prop :=
  forall w, I w ->
    exists cs, trace (snd (c w)) = trace w ++ cs
               /\ I (snd (c w)) /\ Q (fst (c w)) cs.

(** Any world. *)
Definition anywhere : world -> Prop := fun _ => True.

(** A set of worlds that is told by the static [assets_folder] alone. *)
Definition stable (I : world -> Prop) : Prop :=
  forall w t ce gw gh, I w -> I (mkworld t ce gw gh (assets_folder w)).

End Eff.

(* ================================================================== *)
(** * [Application] and [Demo] *)
(* ================================================================== *)

Module App.

Import Fs Audio Eff.

Local Open Scope Z_scope.

(** What the libraries and the machine answer during one run of the
    program. *)
Record env : Type := mkenv {
  platform_of : platform;
  filesystem_of : filesystem;
  base_path : path;                        (* SDL_GetBasePath() *)
  SDL_GetError : string;
  SDL_Init_result : Z;
  SDL_GL_SetAttribute_result : string -> Z;
  SDL_CreateWindow_result : ptr;
  SDL_GL_CreateContext_result : ptr;
  glewInit_result : Z;
  glewGetErrorString : string;
  SDL_GL_SetSwapInterval_result : Z;       (* for ADAPTIVE_VSYNC *)
  SDL_GetWindowSize_result : Z * Z;
  alcOpenDevice_result : ptr;
  alcCreateContext_result : ptr;
  stbi_load_result : option (Z * Z);       (* width and height; None for NULL *)
  glGenTextures_result : Z;
  alGenBuffers_result : Z * Z;
  alGenSources_result : Z * Z;
  SDL_LoadWAV_result : option (SDL_AudioSpec * Z);   (* spec and length *)
  al_backend : backend;
  stb_vorbis_result : Z * Z * Z            (* samples, channels, sample rate *)
}.

Definition GLEW_OK : Z := 0.

Record example_image_t : Type := mkimage {
  handle : Z;
  width : Z;
  height : Z;
  loaded : bool
}.

Record Demo : Type := mkDemo {
  example_image : example_image_t;
  alBufferHandles : Z * Z;
  alSourceHandles : Z * Z
}.

Record Application : Type := mkApplication {
  demo : Demo;
  ptr_window : ptr;
  gl_context : ptr;
  al_device : ptr;
  al_context : ptr;
  is_done : bool
}.

(** The default member initialisers. *)
Definition Demo_default : Demo := mkDemo (mkimage 0 0 0 false) (0, 0) (0, 0).
Definition Application_default : Application :=
  mkApplication Demo_default nullptr nullptr nullptr nullptr false.

Definition path_string (p : path) : string :=
  String.append (match root p with Some r => r | None => "" end)
                (String.concat "/" (names p)).

(** ** The asset root *)

(** The initialiser of the static [assets_folder]. *)
Definition find_assets_folder (e : env) (fuel : nat) : M path :=
  emit fs_current_path ;;
  match try_get_asset_path (platform_of e) (filesystem_of e) fuel
                           (current_path (filesystem_of e)) with
  | None => out_of_fuel
  | Some (Some result) => ret result
  | Some None =>
      emit SDL_GetBasePath ;;
      match try_get_asset_path (platform_of e) (filesystem_of e) fuel
                               (base_path e) with
      | None => out_of_fuel
      | Some result =>
          emit SDL_free ;;
          match result with
          | Some result => ret result
          | None => throw "Failed to find assets folder in parent folders"
          end
      end
  end.

(** A function-local static is initialised by the first call that gets
    through its initialiser; an initialiser that throws leaves it
    uninitialised. *)
Definition get_base_path (e : env) (fuel : nat) : M path :=
  w <- get_world ;;
  match assets_folder w with
  | Some p => ret p
  | None =>
      p <- find_assets_folder e fuel ;;
      set_assets_folder p ;;
      ret p
  end.

(** The worlds in which [get_base_path] returns [base]: the asset root has
    been resolved to [base], or it has not been resolved yet and the search
    finds [base]. *)
Definition resolves (e : env) (fuel : nat) (base : path) : world -> Prop :=
  fun w => fst (get_base_path e fuel w) = Returns base.

(** ** [LoadTextureFromFile] *)

Definition LoadTextureFromFile (e : env) (filename : path) (img : example_image_t)
  : M (bool * example_image_t) :=
  match stbi_load_result e with
  | None => emit (stbi_load filename false) ;; ret (false, img)
  | Some (image_width, image_height) =>
      emit (stbi_load filename true) ;;
      let image_texture := glGenTextures_result e in
      emit (glGenTextures image_texture) ;;
      emit (glBindTexture image_texture) ;;
      emit (glTexParameteri "GL_TEXTURE_MIN_FILTER" "GL_LINEAR") ;;
      emit (glTexParameteri "GL_TEXTURE_MAG_FILTER" "GL_LINEAR") ;;
      emit (glTexParameteri "GL_TEXTURE_WRAP_S" "GL_CLAMP_TO_EDGE") ;;
      emit (glTexParameteri "GL_TEXTURE_WRAP_T" "GL_CLAMP_TO_EDGE") ;;
      emit (glTexImage2D image_width image_height) ;;
      emit stbi_image_free ;;
      ret (true, mkimage image_texture image_width image_height (loaded img))
  end.

(** [gsl::narrow_cast<ALsizei>] of a [Uint32]. *)
Definition narrow_cast_ALsizei (z : Z) : Z :=
  (z + 2 ^ 31) mod 2 ^ 32 - 2 ^ 31.

(** ** [Demo] *)

Definition Demo_Setup (e : env) (fuel : nat) (this : Demo) : M Demo :=
  w <- get_world ;;
  emit (glViewport (gWindowWidth w) (gWindowHeight w)) ;;
  emit glClearColor ;;
  base <- get_base_path e fuel ;;
  r <- LoadTextureFromFile e (base // "images" // "duck.png") (example_image this) ;;
  let example_image :=
    mkimage (handle (snd r)) (width (snd r)) (height (snd r)) (fst r) in
  let alBufferHandles := alGenBuffers_result e in
  emit (alGenBuffers 2 alBufferHandles) ;;
  let alSourceHandles := alGenSources_result e in
  emit (alGenSources 2 alSourceHandles) ;;
  base <- get_base_path e fuel ;;
  let e_path := base // "audio" // "duck-quacking-loudly-three-times.wav" in
  match SDL_LoadWAV_result e with
  | None =>
      emit (SDL_LoadWAV e_path false) ;;
      throw_error_message
        (String.append "Failed to load WAV file: "
           (String.append (path_string e_path) (SDL_GetError e)))
  | Some (wavSpec, wavLength) =>
      emit (SDL_LoadWAV e_path true) ;;
      let format := get_openal_format (al_backend e) wavSpec in
      let size := narrow_cast_ALsizei wavLength in
      let freq := freq wavSpec in
      emit (alBufferData (fst alBufferHandles) format size freq) ;;
      emit SDL_FreeWAV ;;
      emit (alSourcei_AL_BUFFER (fst alSourceHandles) (fst alBufferHandles)) ;;
      base <- get_base_path e fuel ;;
      let stereo_path := base // "audio" // "duck_vocalizations.ogg" in
      let '(samples, channels, sample_rate) := stb_vorbis_result e in
      emit (stb_vorbis_decode_filename stereo_path samples) ;;
      if samples =? -1 then
        throw_error_message
          (String.append "Failed to load OGG file: " (path_string stereo_path))
      else
        let format := if channels =? 1 then AL_FORMAT_MONO16 else AL_FORMAT_STEREO16 in
        let size := samples * channels * 2 in
        let freq := sample_rate in
        emit (alBufferData (snd alBufferHandles) format size freq) ;;
        emit free ;;
        emit (alSourcei_AL_BUFFER (snd alSourceHandles) (snd alBufferHandles)) ;;
        ret (mkDemo example_image alBufferHandles alSourceHandles)
  end.

Definition Demo_Shutdown (this : Demo) : M unit :=
  (if loaded (example_image this)
   then emit (glDeleteTextures (handle (example_image this)))
   else ret tt) ;;
  emit (alDeleteSources 2 (alSourceHandles this)) ;;
  emit (alDeleteBuffers 2 (alBufferHandles this)).

Definition Demo_Draw : M unit :=
  emit glClearColor ;; emit glClear.

(** What the user does to the two buttons during one frame. *)
Record clicks : Type := mkclicks { mono : bool; stereo : bool }.

Definition Demo_ImGuiDraw (c : clicks) (this : Demo) : M unit :=
  emit (ImGui_Begin "OpenGL Texture Test") ;;
  (if loaded (example_image this) then
     emit (ImGui_Text "handle = %d" [handle (example_image this)]) ;;
     emit (ImGui_Text "size = %d x %d"
             [width (example_image this); height (example_image this)]) ;;
     emit (ImGui_Image (handle (example_image this))
             (width (example_image this)) (height (example_image this)))
   else
     emit (ImGui_Text_s "Failed to load texture image...")) ;;
  emit ImGui_End ;;
  emit (ImGui_Begin "Audio Test") ;;
  emit (ImGui_Button "Play Mono SFX" (mono c)) ;;
  (if mono c then emit (alSourcePlay (fst (alSourceHandles this))) else ret tt) ;;
  emit ImGui_SameLine ;;
  emit (ImGui_Button "Play Stereo SFX" (stereo c)) ;;
  (if stereo c then emit (alSourcePlay (snd (alSourceHandles this))) else ret tt) ;;
  emit ImGui_End.

Definition Demo_SetDisplaySize (width height : Z) : M unit :=
  emit (glViewport width height).

(** ** [Application] *)

Definition hint_gl (e : env) (attr : string) (value : Z) : M unit :=
  emit (SDL_GL_SetAttribute attr value) ;;
  if negb (SDL_GL_SetAttribute_result e attr =? 0) then
    print_cerr (String.append "Failed to Set GL Attribute: " (SDL_GetError e))
  else ret tt.

(** The branch for the desktop build ([IS_WEBGL2] not defined). *)
Definition setupSDLWindow (e : env) (title : string) (this : Application)
  : M Application :=
  emit (SDL_Init (SDL_Init_result e)) ;;
  (if SDL_Init_result e <? 0 then
     throw_error_message
       (String.append "Failed to init SDK error: " (SDL_GetError e))
   else ret tt) ;;
  hint_gl e "SDL_GL_CONTEXT_PROFILE_MASK" 1 ;;
  hint_gl e "SDL_GL_DOUBLEBUFFER" 1 ;;
  hint_gl e "SDL_GL_STENCIL_SIZE" 8 ;;
  hint_gl e "SDL_GL_DEPTH_SIZE" 24 ;;
  hint_gl e "SDL_GL_RED_SIZE" 8 ;;
  hint_gl e "SDL_GL_GREEN_SIZE" 8 ;;
  hint_gl e "SDL_GL_BLUE_SIZE" 8 ;;
  hint_gl e "SDL_GL_ALPHA_SIZE" 8 ;;
  hint_gl e "SDL_GL_MULTISAMPLEBUFFERS" 1 ;;
  hint_gl e "SDL_GL_MULTISAMPLESAMPLES" 4 ;;
  w <- get_world ;;
  let ptr_window := SDL_CreateWindow_result e in
  emit (SDL_CreateWindow title (gWindowWidth w) (gWindowHeight w) ptr_window) ;;
  if ptr_window =? nullptr then
    throw_error_message
      (String.append "Failed to create window: " (SDL_GetError e))
  else
    ret (mkApplication (demo this) ptr_window (gl_context this)
                       (al_device this) (al_context this) (is_done this)).

Definition ADAPTIVE_VSYNC : Z := -1.
Definition VSYNC : Z := 1.

Definition setupOpenGL (e : env) (this : Application) : M Application :=
  let gl_context := SDL_GL_CreateContext_result e in
  emit (SDL_GL_CreateContext (ptr_window this) gl_context) ;;
  if gl_context =? nullptr then
    throw_error_message
      (String.append "Failed to create opengl context: " (SDL_GetError e))
  else
    emit (SDL_GL_MakeCurrent (ptr_window this) gl_context) ;;
    emit (glewInit (glewInit_result e)) ;;
    if negb (GLEW_OK =? glewInit_result e) then
      throw_error_message
        (String.append "Unable to initialize GLEW - error: " (glewGetErrorString e))
    else
      emit (SDL_GL_SetSwapInterval ADAPTIVE_VSYNC) ;;
      (if negb (SDL_GL_SetSwapInterval_result e =? 0)
       then emit (SDL_GL_SetSwapInterval VSYNC)
       else ret tt) ;;
      ret (mkApplication (demo this) (ptr_window this) gl_context
                         (al_device this) (al_context this) (is_done this)).

Definition setupImGui (this : Application) : M unit :=
  emit ImGui_CreateContext ;;
  emit (ImGui_ImplSDL2_InitForOpenGL (ptr_window this) (gl_context this)) ;;
  emit ImGui_ImplOpenGL3_Init.

(** [Application::Application(title)]; [None] is the null pointer. *)
Definition Application_ctor (e : env) (fuel : nat) (title : option string)
  : M Application :=
  let this := Application_default in
  match title with
  | None => throw_error_message "App title shouldn't be empty"
  | Some EmptyString => throw_error_message "App title shouldn't be empty"
  | Some title =>
      this <- setupSDLWindow e title this ;;
      this <- setupOpenGL e this ;;
      emit (SDL_GetWindowSize (ptr_window this)) ;;
      set_window_size (SDL_GetWindowSize_result e) ;;
      setupImGui this ;;
      let al_device := alcOpenDevice_result e in
      emit (alcOpenDevice al_device) ;;
      let al_context := alcCreateContext_result e in
      emit (alcCreateContext al_device al_context) ;;
      emit (alcMakeContextCurrent al_context) ;;
      demo <- Demo_Setup e fuel (demo this) ;;
      ret (mkApplication demo (ptr_window this) (gl_context this)
                         al_device al_context (is_done this))
  end.

(** [Application::~Application()] *)
Definition Application_dtor (this : Application) : M unit :=
  Demo_Shutdown (demo this) ;;
  emit (alcMakeContextCurrent nullptr) ;;
  emit (alcDestroyContext (al_context this)) ;;
  emit (alcCloseDevice (al_device this)) ;;
  emit ImGui_ImplOpenGL3_Shutdown ;;
  emit ImGui_ImplSDL2_Shutdown ;;
  emit ImGui_DestroyContext ;;
  emit (SDL_GL_DeleteContext (gl_context this)) ;;
  emit (SDL_DestroyWindow (ptr_window this)) ;;
  emit SDL_Quit.

Inductive SDL_Event : Type :=
| SDL_WINDOWEVENT_CLOSE
| SDL_WINDOWEVENT_RESIZED (data1 data2 : Z)
| SDL_WINDOWEVENT_SIZE_CHANGED (data1 data2 : Z)
| SDL_WINDOWEVENT_other
| SDL_QUIT
| SDL_other.

(** What one frame brings: the events waiting in the queue and the state
    of the two buttons. *)
Record frame : Type := mkframe {
  events : list SDL_Event;
  buttons : clicks
}.

Definition set_is_done (this : Application) : Application :=
  mkApplication (demo this) (ptr_window this) (gl_context this)
                (al_device this) (al_context this) true.

Fixpoint updateWindowEvents (evs : list SDL_Event) (this : Application)
  : M Application :=
  emit SDL_PollEvent ;;
  match evs with
  | [] => ret this
  | event :: evs' =>
      emit ImGui_ImplSDL2_ProcessEvent ;;
      this <- match event with
              | SDL_WINDOWEVENT_CLOSE => ret (set_is_done this)
              | SDL_WINDOWEVENT_RESIZED data1 data2
              | SDL_WINDOWEVENT_SIZE_CHANGED data1 data2 =>
                  set_window_size (data1, data2) ;;
                  Demo_SetDisplaySize data1 data2 ;;
                  ret this
              | SDL_QUIT => ret (set_is_done this)
              | SDL_WINDOWEVENT_other | SDL_other => ret this
              end ;;
      updateWindowEvents evs' this
  end.

(** [Application::Update()]; [setupImGui] has enabled the viewports flag. *)
Definition Update (f : frame) (this : Application) : M Application :=
  this <- updateWindowEvents (events f) this ;;
  Demo_Draw ;;
  emit ImGui_ImplOpenGL3_NewFrame ;;
  emit ImGui_ImplSDL2_NewFrame ;;
  emit ImGui_NewFrame ;;
  Demo_ImGuiDraw (buttons f) (demo this) ;;
  emit ImGui_Render ;;
  emit ImGui_ImplOpenGL3_RenderDrawData ;;
  emit ImGui_UpdatePlatformWindows ;;
  emit ImGui_RenderPlatformWindowsDefault ;;
  emit (SDL_GL_MakeCurrent (ptr_window this) (gl_context this)) ;;
  emit (SDL_GL_SwapWindow (ptr_window this)) ;;
  ret this.

Definition IsDone (this : Application) : bool := is_done this.

(** ** [main], the branch taken when [__EMSCRIPTEN__] is not defined

    The loop runs one [Update] per frame given; [None] stands for a
    program that is still in its loop when the frames have run out.  (Under
    [__EMSCRIPTEN__] the loop is handed to the browser and is not
    modelled.) *)
Fixpoint main_loop (frames : list frame) (application : Application)
  : M (option Application) :=
  if negb (IsDone application) then
    match frames with
    | [] => ret None
    | f :: frames' =>
        application <- Update f application ;;
        main_loop frames' application
    end
  else ret (Some application).

(** The exit status, or [None] when the program has not ended within the
    fuel and the frames given.  An exception from the constructor skips
    the destructor; one from the loop would unwind through it. *)
Definition main (e : env) (fuel : nat) (frames : list frame)
  : world -> option Z * world :=
  fun w =>
    match Application_ctor e fuel (Some "Programming Fun App") w with
    | (Returns application, w) =>
        match main_loop frames application w with
        | (Returns (Some application), w) =>
            (Some 0, snd (Application_dtor application w))
        | (Returns None, w) => (None, w)
        | (Throws what, w) =>
            (Some (-1), snd (print_cerr what (snd (Application_dtor application w))))
        | (OutOfFuel, w) => (None, w)
        end
    | (Throws what, w) => (Some (-1), snd (print_cerr what w))
    | (OutOfFuel, w) => (None, w)
    end.

(** ** Which calls acquire and which release a subsystem *)

Inductive subsystem : Type :=
| Window | GraphicsContext | UiContext | AudioDevice | AudioContext | Assets.

Definition subsystem_eq_dec (a b : subsystem) : {a = b} + {a <> b}.
Proof. decide equality. Defined.

Definition acquires (c : call) : option subsystem :=
  match c with
  | SDL_CreateWindow _ _ _ r => if r =? nullptr then None else Some Window
  | SDL_GL_CreateContext _ r => if r =? nullptr then None else Some GraphicsContext
  | ImGui_CreateContext
  | ImGui_ImplSDL2_InitForOpenGL _ _
  | ImGui_ImplOpenGL3_Init => Some UiContext
  | alcOpenDevice r => if r =? nullptr then None else Some AudioDevice
  | alcCreateContext _ r => if r =? nullptr then None else Some AudioContext
  | glGenTextures _ | alGenBuffers _ _ | alGenSources _ _ => Some Assets
  | _ => None
  end.

Definition releases (c : call) : option subsystem :=
  match c with
  | SDL_DestroyWindow _ => Some Window
  | SDL_GL_DeleteContext _ => Some GraphicsContext
  | ImGui_ImplOpenGL3_Shutdown
  | ImGui_ImplSDL2_Shutdown
  | ImGui_DestroyContext => Some UiContext
  | alcCloseDevice _ => Some AudioDevice
  | alcDestroyContext _ => Some AudioContext
  | glDeleteTextures _ | alDeleteSources _ _ | alDeleteBuffers _ _ => Some Assets
  | _ => None
  end.

Fixpoint filter_map {A B} (f : A -> option B) (l : list A) : list B :=
  match l with
  | [] => []
  | a :: l' =>
      match f a with
      | Some b => b :: filter_map f l'
      | None => filter_map f l'
      end
  end.

(** Consecutive calls for one subsystem count once. *)
Fixpoint squash (l : list subsystem) : list subsystem :=
  match l with
  | [] => []
  | a :: l' =>
      match l' with
      | b :: _ => if subsystem_eq_dec a b then squash l' else a :: squash l'
      | [] => [a]
      end
  end.

(** The subsystems acquired, and those released, in the order of the
    calls. *)
Definition acquired (t : list call) : list subsystem :=
  squash (filter_map acquires t).
Definition released (t : list call) : list subsystem :=
  squash (filter_map releases t).

(** The order in which a complete construction acquires the subsystems; an
    audio device or context that comes back null is not acquired. *)
Definition acquisition_order (e : env) : list subsystem :=
  [Window; GraphicsContext; UiContext]
  ++ (if alcOpenDevice_result e =? nullptr then [] else [AudioDevice])
  ++ (if alcCreateContext_result e =? nullptr then [] else [AudioContext])
  ++ [Assets].


(** Calls that neither acquire nor release a subsystem. *)
Definition quiet (cs : list call) : Prop :=
  filter_map acquires cs = [] /\ filter_map releases cs = [].

(** Two states of the [Application] object that own the same resources. *)
Definition same_resources (a b : Application) : Prop :=
  demo a = demo b /\ ptr_window a = ptr_window b /\ gl_context a = gl_context b
  /\ al_device a = al_device b /\ al_context a = al_context b.

End App.

(* ================================================================== *)
(** * Concrete file systems and runs *)
(* ================================================================== *)

Module Examples.

Import Fs Audio Eff App.

Local Open Scope Z_scope.

(** [C:/proj/bin] is the current directory, the assets are in
    [C:/proj/assets]. *)
Definition fs_project : filesystem :=
  mkfs "C:/" ["proj"; "bin"]
       (tree [[]; ["proj"]; ["proj"; "bin"]; ["proj"; "assets"]]).

(** The only [assets] directory is a child of the root [C:/]. *)
Definition fs_assets_in_root : filesystem :=
  mkfs "C:/" ["proj"; "bin"]
       (tree [[]; ["proj"]; ["proj"; "bin"]; ["assets"]]).

(** No [assets] directory anywhere, on a Windows volume ... *)
Definition fs_no_assets : filesystem :=
  mkfs "C:/" ["proj"; "bin"] (tree [[]; ["proj"]; ["proj"; "bin"]]).

(** ... and on a POSIX one. *)
Definition posix_no_assets : filesystem :=
  mkfs "/" ["home"; "user"] (tree [[]; ["home"]; ["home"; "user"]]).

Definition posix_project : filesystem :=
  mkfs "/" ["proj"; "bin"]
       (tree [[]; ["proj"]; ["proj"; "bin"]; ["proj"; "assets"]]).

(** A 16-bit mono clip, and one in a format outside the four standard
    combinations (signed 32-bit, [AUDIO_S32LSB]). *)
Definition wav_mono16 : SDL_AudioSpec := mkspec 44100 AUDIO_S16SYS 1.
Definition wav_s32 : SDL_AudioSpec := mkspec 44100 0x8020 1.

(** A run on Windows in which every library call succeeds, but for what
    the arguments say: the graphics context, the image, the WAV clip. *)
Definition env_with (fs : filesystem) (gl : ptr) (image : option (Z * Z))
                    (wav : option (SDL_AudioSpec * Z)) : env :=
  mkenv Windows fs (mkpath (Some "C:/") ["proj"; "bin"]) "error" 0
        (fun _ => 0) 100 gl 0 "glew" 0 (800, 600) 300 400 image 7
        (1, 2) (3, 4) wav (mkbackend false 0 0) (500, 2, 48000).

Definition env_ok : env :=
  env_with fs_project 200 (Some (64, 32)) (Some (wav_mono16, 1000)).
Definition env_no_gl_context : env :=
  env_with fs_project nullptr (Some (64, 32)) (Some (wav_mono16, 1000)).
Definition env_no_image : env :=
  env_with fs_project 200 None (Some (wav_mono16, 1000)).
Definition env_wav_s32 : env :=
  env_with fs_project 200 (Some (64, 32)) (Some (wav_s32, 1000)).

(** Two frames: the user presses the mono button, then closes the window. *)
Definition two_frames : list frame :=
  [mkframe [] (mkclicks true false); mkframe [SDL_QUIT] (mkclicks false false)].

Definition world_no_gl_context : world :=
  snd (main env_no_gl_context 5 two_frames initial_world).
Definition world_no_gl_context_thrown : world :=
  snd (Application_ctor env_no_gl_context 5 (Some "Programming Fun App")
         initial_world).

(** The world after the first resolution of the asset root. *)
Definition world_resolved : world :=
  snd (get_base_path env_ok 5 initial_world).


End Examples.

(* ================================================================== *)
(** * The [setWindowSize] binding of the browser build *)
(* ================================================================== *)

Module Web.

Import Eff.

Local Open Scope Z_scope.

(** The function bound to [setWindowSize] under [__EMSCRIPTEN__].  The flag
    [gNeedResize], which is no part of [world], is passed in and
    returned. *)
Definition setWindowSize (sizeX sizeY : Z) (gNeedResize : bool) : M bool :=
  let sizeX := if sizeX <? 400 then 400 else sizeX in
  let sizeY := if sizeY <? 400 then 400 else sizeY in
  w <- get_world ;;
  if negb (sizeX =? gWindowWidth w) || negb (sizeY =? gWindowHeight w) then
    let gNeedResize := true in
    set_window_size (sizeX, sizeY) ;;
    ret gNeedResize
  else ret gNeedResize.

End Web.

(* ================================================================== *)
(** * What is observed of a run *)
(* ================================================================== *)

Module Obs.

Import Fs Audio Eff App.

Local Open Scope Z_scope.

(** The events that end the program. *)
Definition quit_event (ev : SDL_Event) : bool :=
  match ev with
  | SDL_WINDOWEVENT_CLOSE | SDL_QUIT => true
  | _ => false
  end.

Definition quits (f : frame) : bool := existsb quit_event (events f).

(** The frames the main loop renders: up to the first one that brings a
    quit event, that one included. *)
Fixpoint rendered (frames : list frame) : list frame :=
  match frames with
  | [] => []
  | f :: frames' => if quits f then [f] else f :: rendered frames'
  end.

(** The window size after a list of events: that of the last resize event,
    if there is one. *)
Fixpoint resized (evs : list SDL_Event) (size : Z * Z) : Z * Z :=
  match evs with
  | [] => size
  | SDL_WINDOWEVENT_RESIZED data1 data2 :: evs'
  | SDL_WINDOWEVENT_SIZE_CHANGED data1 data2 :: evs' => resized evs' (data1, data2)
  | _ :: evs' => resized evs' size
  end.

(** The sizes of the resize events, in order. *)
Fixpoint resizes (evs : list SDL_Event) : list (Z * Z) :=
  match evs with
  | [] => []
  | SDL_WINDOWEVENT_RESIZED data1 data2 :: evs'
  | SDL_WINDOWEVENT_SIZE_CHANGED data1 data2 :: evs' => (data1, data2) :: resizes evs'
  | _ :: evs' => resizes evs'
  end.

(** The sizes given to [glViewport], in order. *)
Definition viewports (cs : list call) : list (Z * Z) :=
  filter_map (fun c => match c with
                       | glViewport w h => Some (w, h)
                       | _ => None
                       end) cs.

(** The sources played, in order. *)
Definition played (cs : list call) : list Z :=
  filter_map (fun c => match c with
                       | alSourcePlay s => Some s
                       | _ => None
                       end) cs.

(** The sources the buttons of a frame ask for. *)
Definition asked (sources : Z * Z) (f : frame) : list Z :=
  (if mono (buttons f) then [fst sources] else [])
  ++ (if stereo (buttons f) then [snd sources] else []).

(** The windows whose buffers were swapped, in order. *)
Definition swapped (cs : list call) : list ptr :=
  filter_map (fun c => match c with
                       | SDL_GL_SwapWindow window => Some window
                       | _ => None
                       end) cs.

(** The textures drawn, each with its handle, width and height, in
    order. *)
Definition shown (cs : list call) : list (Z * Z * Z) :=
  filter_map (fun c => match c with
                       | ImGui_Image handle width height =>
                           Some (handle, width, height)
                       | _ => None
                       end) cs.

(** The texture uploads, each with its width and height, in order. *)
Definition uploaded (cs : list call) : list (Z * Z) :=
  filter_map (fun c => match c with
                       | glTexImage2D width height => Some (width, height)
                       | _ => None
                       end) cs.

(** The swap intervals asked for, in order. *)
Definition intervals (cs : list call) : list Z :=
  filter_map (fun c => match c with
                       | SDL_GL_SetSwapInterval interval => Some interval
                       | _ => None
                       end) cs.

(** The calls of the search for the asset root. *)
Definition lookup (c : call) : bool :=
  match c with
  | fs_current_path | SDL_GetBasePath | SDL_free => true
  | _ => false
  end.

(** The calls of the destructor for the handles the libraries gave out. *)
Definition shutdown_calls (e : env) : list call :=
  (match stbi_load_result e with
   | Some _ => [glDeleteTextures (glGenTextures_result e)]
   | None => []
   end)
  ++ [alDeleteSources 2 (alGenSources_result e);
      alDeleteBuffers 2 (alGenBuffers_result e);
      alcMakeContextCurrent nullptr;
      alcDestroyContext (alcCreateContext_result e);
      alcCloseDevice (alcOpenDevice_result e);
      ImGui_ImplOpenGL3_Shutdown;
      ImGui_ImplSDL2_Shutdown;
      ImGui_DestroyContext;
      SDL_GL_DeleteContext (SDL_GL_CreateContext_result e);
      SDL_DestroyWindow (SDL_CreateWindow_result e);
      SDL_Quit].

(** The attributes [setupSDLWindow] hints, with their values, in order. *)
Definition hinted : list (string * Z) :=
  [("SDL_GL_CONTEXT_PROFILE_MASK", 1); ("SDL_GL_DOUBLEBUFFER", 1);
   ("SDL_GL_STENCIL_SIZE", 8); ("SDL_GL_DEPTH_SIZE", 24);
   ("SDL_GL_RED_SIZE", 8); ("SDL_GL_GREEN_SIZE", 8);
   ("SDL_GL_BLUE_SIZE", 8); ("SDL_GL_ALPHA_SIZE", 8);
   ("SDL_GL_MULTISAMPLEBUFFERS", 1); ("SDL_GL_MULTISAMPLESAMPLES", 4)].

(** The hints the library refuses. *)
Definition refused (e : env) : list (string * Z) :=
  filter (fun h => negb (SDL_GL_SetAttribute_result e (fst h) =? 0)) hinted.

(** The message of the one failure that is not raised through
    [throw_error_message]. *)
Definition not_found : string := "Failed to find assets folder in parent folders".

(** [wp c Q w]: run from [w], [c] ends with an outcome and in a world that
    satisfy [Q]. *)
Definition wp {A} (c : M A) (Q : outcome A -> world -> Prop) (w : world) : Prop :=
  Q (fst (c w)) (snd (c w)).

End Obs.

(* ================================================================== *)
(** * More concrete runs *)
(* ================================================================== *)

Module Cases.

Import Fs Audio Eff App Examples.

Local Open Scope Z_scope.



(** Three frames: both buttons pressed; a resize, then the window closed
    with the mono button pressed; a frame that is never reached. *)
Definition three_frames : list frame :=
  [mkframe [] (mkclicks true true);
   mkframe [SDL_WINDOWEVENT_RESIZED 1024 768; SDL_WINDOWEVENT_CLOSE]
           (mkclicks true false);
   mkframe [] (mkclicks false true)].

(** The object and the world the construction of [env_ok] leaves. *)
Definition world_constructed : world :=
  snd (Application_ctor env_ok 5 (Some "Programming Fun App") initial_world).
Definition fst_app (e : env) : Application :=
  mkApplication
    (mkDemo (match stbi_load_result e with
             | Some (w, h) => mkimage (glGenTextures_result e) w h true
             | None => mkimage 0 0 0 false
             end)
            (alGenBuffers_result e) (alGenSources_result e))
    (SDL_CreateWindow_result e) (SDL_GL_CreateContext_result e)
    (alcOpenDevice_result e) (alcCreateContext_result e) false.

(** The run of [env_ok] with the two multisampling hints refused. *)
Definition env_refusing : env :=
  mkenv Windows fs_project (mkpath (Some "C:/") ["proj"; "bin"]) "error" 0
        (fun attr => if String.eqb attr "SDL_GL_MULTISAMPLEBUFFERS" then -1
                     else if String.eqb attr "SDL_GL_MULTISAMPLESAMPLES" then -1
                     else 0)
        100 200 0 "glew" 0 (800, 600) 300 400 (Some (64, 32)) 7
        (1, 2) (3, 4) (Some (wav_mono16, 1000)) (mkbackend false 0 0)
        (500, 2, 48000).


(** The run of [env_ok] with adaptive vsync refused. *)
Definition env_no_adaptive_vsync : env :=
  mkenv Windows fs_project (mkpath (Some "C:/") ["proj"; "bin"]) "error" 0
        (fun _ => 0) 100 200 0 "glew" (-1) (800, 600) 300 400 (Some (64, 32)) 7
        (1, 2) (3, 4) (Some (wav_mono16, 1000)) (mkbackend false 0 0)
        (500, 2, 48000).


End Cases.

(* ================================================================== *)
(** * Facts about the upward walk *)
(* ================================================================== *)

Section Walk.

Import Fs.

Variable fs : filesystem.

Lemma plain_not_dot n : plain n = true -> (n =? ".") = false /\ (n =? "..") = false.
Proof.
  unfold plain. intros H. apply andb_prop in H as [H1 H2].
  split; now apply negb_true_iff.
Qed.

Lemma normal_rev d : normal (rev d) = normal d.
Proof.
  unfold normal. induction d as [|n d IH]; simpl; [reflexivity|].
  rewrite forallb_app, IH. simpl. rewrite andb_true_r. apply andb_comm.
Qed.

Lemma normal_skipn k s : normal s = true -> normal (skipn k s) = true.
Proof.
  unfold normal. rewrite !forallb_forall. intros H x Hx.
  apply H. rewrite <- (firstn_skipn k s). apply in_or_app. now right.
Qed.

Lemma collapse_normal ns : forall acc,
  normal ns = true -> collapse acc ns = rev acc ++ ns.
Proof.
  induction ns as [|n ns IH]; intros acc H; simpl.
  - now rewrite app_nil_r.
  - simpl in H. apply andb_prop in H as [Hn Hns].
    destruct (plain_not_dot n Hn) as [-> ->].
    rewrite IH by assumption. simpl. now rewrite <- app_assoc.
Qed.

Lemma collapse_app xs : forall acc ys,
  collapse acc (xs ++ ys) = collapse (rev (collapse acc xs)) ys.
Proof.
  induction xs as [|x xs IH]; intros acc ys; simpl.
  - now rewrite rev_involutive.
  - destruct (x =? "."); [apply IH|].
    destruct (x =? ".."); apply IH.
Qed.

Lemma skipn_tl {A} k (s : list A) : skipn k (tl s) = skipn (S k) s.
Proof. destruct s; simpl; [now rewrite skipn_nil | reflexivity]. Qed.

(** *** Windows *)

Lemma absolute_windows_assets s r :
  normal s = true ->
  absolute Windows fs (mkpath (Some r) (rev s) // "assets")
  = mkpath (Some r) (rev s ++ ["assets"]).
Proof.
  intros H. unfold absolute, append. simpl.
  rewrite collapse_normal; [reflexivity|].
  unfold normal. rewrite forallb_app. fold (normal (rev s)).
  now rewrite normal_rev, H.
Qed.

Lemma absolute_windows_parent s r :
  normal s = true ->
  absolute Windows fs (mkpath (Some r) (rev s) // "..")
  = mkpath (Some r) (rev (tl s)).
Proof.
  intros H. unfold absolute, append. simpl.
  rewrite collapse_app, (collapse_normal (rev s)) by now rewrite normal_rev.
  simpl. now rewrite rev_involutive.
Qed.

Lemma absolute_windows_normal ns r :
  normal ns = true ->
  absolute Windows fs (mkpath (Some r) ns) = mkpath (Some r) ns.
Proof.
  intros H. unfold absolute. simpl. now rewrite collapse_normal.
Qed.

Lemma is_directory_windows_normal ns :
  normal ns = true ->
  is_directory Windows fs (at_root fs ns) = dirs fs ns.
Proof.
  intros H. unfold is_directory, from_root, at_root. simpl.
  rewrite String.eqb_refl. now rewrite collapse_normal.
Qed.

Lemma normal_assets s :
  normal s = true -> normal (rev s ++ ["assets"]) = true.
Proof.
  intros H. unfold normal. rewrite forallb_app. fold (normal (rev s)).
  now rewrite normal_rev, H.
Qed.

Lemma normal_tl s : normal s = true -> normal (tl s) = true.
Proof.
  destruct s; simpl; [easy|]. intros H. now apply andb_prop in H.
Qed.

(** One iteration of the loop on Windows, for a normal directory given last
    name first. *)
Lemma walk_windows_step fuel s :
  normal s = true ->
  walk Windows fs (at_root fs []) (S fuel) (at_root fs (rev s))
  = if dirs fs (rev s ++ ["assets"])
    then Some (Some (at_root fs (rev s ++ ["assets"])))
    else match tl s with
         | [] => Some None
         | _ :: _ => walk Windows fs (at_root fs []) fuel (at_root fs (rev (tl s)))
         end.
Proof.
  intros H. unfold at_root at 2. cbn [walk]. cbv zeta.
  rewrite absolute_windows_assets, absolute_windows_parent by assumption.
  fold (at_root fs (rev s ++ ["assets"])).
  rewrite is_directory_windows_normal by now apply normal_assets.
  destruct (dirs fs (rev s ++ ["assets"])); [reflexivity|].
  rewrite absolute_windows_normal by (rewrite normal_rev; now apply normal_tl).
  unfold path_eqb, at_root.
  destruct (path_eq_dec _ _) as [E|E]; simpl.
  - injection E as E. destruct (tl s) as [|x t]; [reflexivity|].
    simpl in E. now destruct (rev t).
  - destruct (tl s) as [|x t]; [now contradiction E | reflexivity].
Qed.

Lemma walk_windows_found k : forall fuel s,
  normal s = true ->
  (k < fuel)%nat ->
  (k < length s)%nat \/ k = O ->
  dirs fs (rev (skipn k s) ++ ["assets"]) = true ->
  (forall j, (j < k)%nat -> dirs fs (rev (skipn j s) ++ ["assets"]) = false) ->
  walk Windows fs (at_root fs []) fuel (at_root fs (rev s))
  = Some (Some (at_root fs (rev (skipn k s) ++ ["assets"]))).
Proof.
  induction k as [|k IH]; intros fuel s Hn Hf Hk Hd Hmin;
    (destruct fuel as [|fuel]; [lia|]); rewrite walk_windows_step by assumption.
  - simpl in Hd. now rewrite Hd.
  - pose proof (Hmin O ltac:(lia)) as H0. simpl in H0. rewrite H0.
    destruct Hk as [Hk|Hk]; [|discriminate].
    destruct s as [|x [|y t]]; simpl in Hk; try lia.
    cbn [tl]. apply IH.
    + now apply normal_tl in Hn.
    + lia.
    + simpl. left. lia.
    + exact Hd.
    + intros j Hj. apply (Hmin (S j)). lia.
Qed.

(** On Windows the walk from an absolute directory comes to an end: within
    as many iterations as the directory has names (one for the root). *)
Lemma walk_windows_terminates : forall fuel s,
  normal s = true ->
  (length s < fuel)%nat ->
  walk Windows fs (at_root fs []) fuel (at_root fs (rev s)) <> None.
Proof.
  induction fuel as [|fuel IH]; intros s Hn Hf; [lia|].
  rewrite walk_windows_step by assumption.
  destruct (dirs fs (rev s ++ ["assets"])); [discriminate|].
  destruct s as [|x [|y t]]; try discriminate.
  cbn [tl]. apply IH; [now apply normal_tl in Hn | simpl in *; lia].
Qed.

(** ... and it comes back empty when none of the directories it looks at
    has an [assets] child; the root is among them only as the start. *)
Lemma walk_windows_empty : forall fuel s,
  normal s = true ->
  (length s < fuel)%nat ->
  (forall j, (j < length s)%nat \/ j = O ->
             dirs fs (rev (skipn j s) ++ ["assets"]) = false) ->
  walk Windows fs (at_root fs []) fuel (at_root fs (rev s)) = Some None.
Proof.
  induction fuel as [|fuel IH]; intros s Hn Hf Hd; [lia|].
  rewrite walk_windows_step by assumption.
  pose proof (Hd O (or_intror eq_refl)) as H0. simpl in H0. rewrite H0.
  destruct s as [|x [|y t]]; try reflexivity.
  cbn [tl]. apply IH; [now apply normal_tl in Hn | simpl in *; lia |].
  intros j Hj. apply (Hd (S j)). left. simpl in *. lia.
Qed.

(** *** POSIX *)


Lemma resolve_normal ns : forall cur rest,
  normal ns = true ->
  (forall j, (j < length ns)%nat -> dirs fs (rev cur ++ firstn j ns) = true) ->
  resolve fs cur (ns ++ rest) = resolve fs (rev ns ++ cur) rest.
Proof.
  induction ns as [|n ns IH]; intros cur rest Hn Hd; [reflexivity|].
  simpl in Hn. apply andb_prop in Hn as [Hp Hn].
  destruct (plain_not_dot n Hp) as [E1 E2].
  simpl. pose proof (Hd O) as H0. simpl in H0. rewrite app_nil_r in H0.
  rewrite H0 by lia. rewrite E1, E2.
  rewrite IH; [now rewrite <- app_assoc | assumption |].
  intros j Hj. simpl. rewrite <- app_assoc. apply (Hd (S j)). simpl. lia.
Qed.

Lemma resolve_dots i : forall s rest,
  (forall j, (j < i)%nat -> dirs fs (rev (skipn j s)) = true) ->
  resolve fs s (repeat ".." i ++ rest) = resolve fs (skipn i s) rest.
Proof.
  induction i as [|i IH]; intros s rest Hd; [reflexivity|].
  simpl repeat. simpl app. cbn [resolve].
  pose proof (Hd O ltac:(lia)) as H0. simpl in H0. rewrite H0.
  simpl. rewrite IH; [now rewrite skipn_tl|].
  intros j Hj. rewrite skipn_tl. apply Hd. lia.
Qed.

Lemma is_directory_posix_dots s i :
  normal s = true ->
  (forall j, dirs fs (rev (skipn j s)) = true) ->
  is_directory Posix fs (at_root fs (rev s ++ repeat ".." i ++ ["assets"]))
  = dirs fs (rev (skipn i s) ++ ["assets"]).
Proof.
  intros Hn Hex. unfold is_directory, from_root, at_root. simpl.
  rewrite String.eqb_refl.
  rewrite resolve_normal.
  - rewrite rev_involutive, app_nil_r, resolve_dots by (intros; apply Hex).
    simpl. rewrite Hex. now destruct (dirs fs (rev (skipn i s) ++ ["assets"])).
  - now rewrite normal_rev.
  - intros j _. simpl. rewrite firstn_rev. apply Hex.
Qed.

(** One iteration of the loop on POSIX, [i] parent-traversals above an
    existing normal directory given last name first. *)
Lemma walk_posix_step fuel s i :
  normal s = true ->
  (forall j, dirs fs (rev (skipn j s)) = true) ->
  walk Posix fs (at_root fs []) (S fuel) (at_root fs (rev s ++ repeat ".." i))
  = if dirs fs (rev (skipn i s) ++ ["assets"])
    then Some (Some (at_root fs (rev s ++ repeat ".." i ++ ["assets"])))
    else walk Posix fs (at_root fs []) fuel (at_root fs (rev s ++ repeat ".." (S i))).
Proof.
  intros Hn Hex. cbn [walk]. cbv zeta.
  assert (E1 : absolute Posix fs (at_root fs (rev s ++ repeat ".." i) // "assets")
               = at_root fs (rev s ++ repeat ".." i ++ ["assets"])).
  { unfold absolute, append, at_root. simpl. now rewrite <- app_assoc. }
  assert (E2 : absolute Posix fs (at_root fs (rev s ++ repeat ".." i) // "..")
               = at_root fs (rev s ++ repeat ".." (S i))).
  { unfold absolute, append, at_root. simpl.
    now rewrite <- app_assoc, <- repeat_cons. }
  rewrite E1, E2, is_directory_posix_dots by assumption.
  destruct (dirs fs (rev (skipn i s) ++ ["assets"])); [reflexivity|].
  unfold path_eqb.
  destruct (path_eq_dec _ _) as [E|E]; [|reflexivity].
  exfalso. apply (f_equal names) in E. simpl in E.
  apply (f_equal (@length string)) in E. rewrite length_app in E.
  simpl in E. lia.
Qed.

Lemma walk_posix_found k : forall fuel s i,
  normal s = true ->
  (forall j, dirs fs (rev (skipn j s)) = true) ->
  (k < fuel)%nat ->
  dirs fs (rev (skipn (i + k) s) ++ ["assets"]) = true ->
  (forall j, (j < k)%nat -> dirs fs (rev (skipn (i + j) s) ++ ["assets"]) = false) ->
  walk Posix fs (at_root fs []) fuel (at_root fs (rev s ++ repeat ".." i))
  = Some (Some (at_root fs (rev s ++ repeat ".." (i + k) ++ ["assets"]))).
Proof.
  induction k as [|k IH]; intros fuel s i Hn Hex Hf Hd Hmin;
    (destruct fuel as [|fuel]; [lia|]); rewrite walk_posix_step by assumption.
  - rewrite Nat.add_0_r in *. now rewrite Hd.
  - pose proof (Hmin O ltac:(lia)) as H0. rewrite Nat.add_0_r in H0. rewrite H0.
    replace (i + S k)%nat with (S i + k)%nat by lia.
    apply IH; try assumption; try lia.
    + now replace (S i + k)%nat with (i + S k)%nat by lia.
    + intros j Hj. replace (S i + j)%nat with (i + S j)%nat by lia.
      apply Hmin. lia.
Qed.

(** On POSIX the walk from an existing directory with no [assets] child
    anywhere above it never leaves the loop. *)
Lemma walk_posix_diverges fuel : forall s i,
  normal s = true ->
  (forall j, dirs fs (rev (skipn j s)) = true) ->
  (forall j, dirs fs (rev (skipn j s) ++ ["assets"]) = false) ->
  walk Posix fs (at_root fs []) fuel (at_root fs (rev s ++ repeat ".." i)) = None.
Proof.
  induction fuel as [|fuel IH]; intros s i Hn Hex Hno; [reflexivity|].
  rewrite walk_posix_step, Hno by assumption. now apply IH.
Qed.

End Walk.

(* ================================================================== *)
(** * The claims about the upward walk *)
(* ================================================================== *)

Section WalkClaims.

Import Fs Examples.

(** C1, as the code has it: from an existing directory [d] given by plain
    names, if the [k]-th ancestor of [d] is the nearest one with an
    [assets] child, the walk returns the absolute path of that [assets]
    directory (not of the ancestor itself), within [k + 1] iterations; on
    POSIX the path is spelled with the [k] parent-traversals left in.  On
    Windows this is stated for an ancestor that is [d] itself or is not the
    root. *)
Theorem try_get_asset_path_nearest pl fs d k fuel :
  normal d = true ->
  (forall j, dirs fs (ancestor d j) = true) ->
  dirs fs (ancestor d k ++ ["assets"]) = true ->
  (forall j, j < k -> dirs fs (ancestor d j ++ ["assets"]) = false) ->
  (pl = Windows -> k < length d \/ k = 0) ->
  k < fuel ->
  try_get_asset_path pl fs fuel (at_root fs d)
  = Some (Some (nearest_assets pl fs d k))
  /\ is_directory pl fs (nearest_assets pl fs d k) = true
  /\ match pl with
     | Windows => names (nearest_assets pl fs d k) = ancestor d k ++ ["assets"]
     | Posix => resolve fs [] (names (nearest_assets pl fs d k))
                = Some (ancestor d k ++ ["assets"])
     end.
Proof.
  intros Hn Hex Hd Hmin Hk Hf. unfold ancestor in *.
  assert (Hs : normal (rev d) = true) by now rewrite normal_rev.
  unfold try_get_asset_path, nearest_assets.
  change (root_path (at_root fs d)) with (at_root fs []). cbv zeta.
  destruct pl.
  - pose proof (walk_posix_found fs k fuel (rev d) 0 Hs Hex Hf Hd Hmin) as E.
    simpl in E. rewrite rev_involutive, app_nil_r in E. rewrite E.
    split; [reflexivity|].
    pose proof (is_directory_posix_dots fs (rev d) k Hs Hex) as E'.
    rewrite rev_involutive in E'. rewrite E', Hd. split; [reflexivity|].
    unfold at_root. simpl. rewrite resolve_normal.
    + rewrite app_nil_r, resolve_dots by (intros; apply Hex).
      simpl. rewrite Hex. simpl. now rewrite Hd.
    + exact Hn.
    + intros j _. simpl. rewrite <- (rev_involutive d), firstn_rev. apply Hex.
  - assert (Hk' : k < length (rev d) \/ k = 0)
      by (rewrite length_rev; now apply Hk).
    pose proof (walk_windows_found fs k fuel (rev d) Hs Hf Hk' Hd Hmin) as E.
    rewrite rev_involutive in E. rewrite E.
    split; [reflexivity|]. split; [|reflexivity].
    rewrite is_directory_windows_normal; [exact Hd|].
    apply normal_assets. now apply normal_skipn.
Qed.

Lemma try_get_asset_path_nearest_witness :
  normal ["proj"; "bin"] = true
  /\ (forall j, dirs fs_project (ancestor ["proj"; "bin"] j) = true)
  /\ dirs fs_project (ancestor ["proj"; "bin"] 1 ++ ["assets"]) = true
  /\ (forall j, j < 1 ->
                dirs fs_project (ancestor ["proj"; "bin"] j ++ ["assets"]) = false)
  /\ 1 < 2
  /\ try_get_asset_path Windows fs_project 2 (at_root fs_project ["proj"; "bin"])
     = Some (Some (nearest_assets Windows fs_project ["proj"; "bin"] 1))
  /\ is_directory Windows fs_project
       (nearest_assets Windows fs_project ["proj"; "bin"] 1) = true
  /\ names (nearest_assets Windows fs_project ["proj"; "bin"] 1)
     = ancestor ["proj"; "bin"] 1 ++ ["assets"].
Proof.
  assert (H1 : normal ["proj"; "bin"] = true) by reflexivity.
  assert (H2 : forall j, dirs fs_project (ancestor ["proj"; "bin"] j) = true)
    by (intros [|[|[|j]]]; reflexivity).
  assert (H3 : dirs fs_project (ancestor ["proj"; "bin"] 1 ++ ["assets"]) = true)
    by reflexivity.
  assert (H4 : forall j, j < 1 ->
             dirs fs_project (ancestor ["proj"; "bin"] j ++ ["assets"]) = false)
    by (intros j Hj; assert (j = 0) as -> by lia; reflexivity).
  assert (H5 : Windows = Windows -> 1 < length ["proj"; "bin"] \/ 1 = 0)
    by (intros _; left; simpl; lia).
  assert (H6 : 1 < 2) by lia.
  repeat (split; [assumption|]).
  exact (try_get_asset_path_nearest Windows fs_project ["proj"; "bin"] 1 2
           H1 H2 H3 H4 H5 H6).
Defined.

(** C1 as stated fails: with the assets in [C:/proj/assets] the walk from
    [C:/proj/bin] returns the path of that [assets] directory, not of the
    ancestor [C:/proj] that has it; and on Windows, with the only [assets]
    directory a child of the root, the walk returns nothing although the
    root is an ancestor with an [assets] child. *)
Lemma nearest_ancestor_counterexample :
  try_get_asset_path Windows fs_project 5 (current_path fs_project)
  = Some (Some (mkpath (Some "C:/") ["proj"; "assets"]))
  /\ try_get_asset_path Windows fs_project 5 (current_path fs_project)
     <> Some (Some (mkpath (Some "C:/") ["proj"]))
  /\ try_get_asset_path Posix posix_project 5 (current_path posix_project)
     = Some (Some (mkpath (Some "/") ["proj"; "bin"; ".."; "assets"]))
  /\ dirs fs_assets_in_root (ancestor ["proj"; "bin"] 2 ++ ["assets"]) = true
  /\ try_get_asset_path Windows fs_assets_in_root 5 (current_path fs_assets_in_root)
     = Some None.
Proof.
  repeat apply conj; try (vm_compute; reflexivity).
  vm_compute. discriminate.
Qed.

(** C4 at its failing inputs.  On Windows, from [C:/proj/bin] with the only
    [assets] directory a child of the root [C:/], the walk leaves its loop
    when it reaches the root and returns nothing: the root has not been
    looked at.  On POSIX, from [/home/user] with no [assets] directory
    anywhere, the walk never returns empty, whatever the number of
    iterations allowed. *)
Theorem root_is_not_checked :
  is_directory Windows fs_assets_in_root (at_root fs_assets_in_root ["assets"]) = true
  /\ try_get_asset_path Windows fs_assets_in_root 2 (current_path fs_assets_in_root)
     = Some None
  /\ forall fuel,
       try_get_asset_path Posix posix_no_assets fuel (current_path posix_no_assets)
       = None.
Proof.
  split; [reflexivity|]. split; [reflexivity|].
  intros fuel.
  apply (walk_posix_diverges posix_no_assets fuel ["user"; "home"] 0).
  - reflexivity.
  - intros [|[|[|j]]]; reflexivity.
  - intros [|[|[|j]]]; reflexivity.
Qed.

(** The parts of C4 that hold on Windows: from an absolute directory with
    no [assets] child on the way up, the root left aside unless it is the
    start, the walk ends and returns nothing. *)
Lemma try_get_asset_path_windows_empty fs d fuel :
  normal d = true ->
  length d < fuel ->
  (forall j, j < length d \/ j = 0 -> dirs fs (ancestor d j ++ ["assets"]) = false) ->
  try_get_asset_path Windows fs fuel (at_root fs d) = Some None.
Proof.
  intros Hn Hf Hd. unfold try_get_asset_path, root_path. simpl.
  fold (at_root fs []). rewrite <- (rev_involutive d).
  apply walk_windows_empty.
  - now rewrite normal_rev.
  - now rewrite length_rev.
  - intros j Hj. apply Hd. now rewrite length_rev in Hj.
Qed.


(** On Windows the walk from an absolute directory ends. *)
Lemma try_get_asset_path_windows_terminates fs d fuel :
  normal d = true ->
  length d < fuel ->
  try_get_asset_path Windows fs fuel (at_root fs d) <> None.
Proof.
  intros Hn Hf. unfold try_get_asset_path, root_path. simpl.
  fold (at_root fs []). rewrite <- (rev_involutive d).
  apply walk_windows_terminates; [now rewrite normal_rev | now rewrite length_rev].
Qed.



End WalkClaims.

(* ================================================================== *)
(** * Facts about the calls a computation makes *)
(* ================================================================== *)

Section Emits.

Import Fs Audio Eff App.

Context {A : Type} (I : world -> Prop).

Lemma stable_anywhere : stable anywhere.
Proof. now intros w t ce gw gh _. Qed.

Lemma emits_conseq (c : M A) (Q Q' : outcome A -> list call -> Prop) :
  (forall o cs, Q o cs -> Q' o cs) -> emits_from I c Q -> emits_from I c Q'.
Proof.
  intros HQ H w Hw. destruct (H w Hw) as (cs & Ht & Hi & Hq). exists cs. auto.
Qed.

Lemma emits_ret (a : A) Q : Q (Returns a) [] -> emits_from I (ret a) Q.
Proof. intros H w Hw. exists []. simpl. now rewrite app_nil_r. Qed.

Lemma emits_throw what (Q : outcome A -> list call -> Prop) :
  Q (Throws what) [] -> emits_from I (throw what) Q.
Proof. intros H w Hw. exists []. simpl. now rewrite app_nil_r. Qed.

Lemma emits_out_of_fuel (Q : outcome A -> list call -> Prop) :
  Q OutOfFuel [] -> emits_from I out_of_fuel Q.
Proof. intros H w Hw. exists []. simpl. now rewrite app_nil_r. Qed.

Lemma emits_emit c Q :
  stable I -> Q (Returns tt) [c] -> emits_from I (emit c) Q.
Proof. intros St H w Hw. exists [c]. simpl. auto. Qed.

Lemma emits_print_cerr s Q :
  stable I -> Q (Returns tt) [] -> emits_from I (print_cerr s) Q.
Proof. intros St H w Hw. exists []. simpl. rewrite app_nil_r. auto. Qed.

Lemma emits_set_window_size wh Q :
  stable I -> Q (Returns tt) [] -> emits_from I (set_window_size wh) Q.
Proof. intros St H w Hw. exists []. simpl. rewrite app_nil_r. auto. Qed.

Lemma emits_get_world Q :
  (forall w, I w -> Q (Returns w) []) -> emits_from I get_world Q.
Proof. intros H w Hw. exists []. simpl. rewrite app_nil_r. auto. Qed.

Lemma emits_bind {B} (c : M A) (k : A -> M B) Q :
  emits_from I c
    (fun o cs =>
       match o with
       | Returns a => emits_from I (k a) (fun o' cs' => Q o' (cs ++ cs'))
       | Throws what => Q (Throws what) cs
       | OutOfFuel => Q OutOfFuel cs
       end) ->
  emits_from I (bind c k) Q.
Proof.
  intros H w Hw. destruct (H w Hw) as (cs & Ht & Hi & Hq). unfold bind.
  destruct (c w) as [[a|what|] w1]; simpl in *; try (exists cs; now auto).
  destruct (Hq w1 Hi) as (cs' & Ht' & Hi' & Hq'). exists (cs ++ cs').
  now rewrite Ht', Ht, app_assoc.
Qed.

End Emits.

Section Calls.

Import Fs Audio Eff App.

Lemma emits_throw_error_message {A} I message (Q : outcome A -> list call -> Prop) :
  stable I -> Q (Throws message) [] -> emits_from I (throw_error_message message) Q.
Proof.
  intros St H. unfold throw_error_message.
  apply emits_bind, emits_print_cerr; [exact St|].
  now apply emits_throw.
Qed.

Lemma emits_set_assets_folder p Q :
  Q (Returns tt) [] -> emits_from anywhere (set_assets_folder p) Q.
Proof. intros H w Hw. exists []. simpl. now rewrite app_nil_r. Qed.

Lemma filter_map_app {A B} (f : A -> option B) l1 l2 :
  filter_map f (l1 ++ l2) = filter_map f l1 ++ filter_map f l2.
Proof.
  induction l1 as [|a l1 IH]; simpl; [reflexivity|].
  destruct (f a); simpl; now rewrite IH.
Qed.

Lemma quiet_nil : quiet [].
Proof. now split. Qed.

Lemma quiet_app cs1 cs2 : quiet cs1 -> quiet cs2 -> quiet (cs1 ++ cs2).
Proof.
  intros [A1 R1] [A2 R2]. split; rewrite filter_map_app.
  - now rewrite A1, A2.
  - now rewrite R1, R2.
Qed.

End Calls.

Create HintDb stable.
#[export] Hint Resolve stable_anywhere : stable.

(** One step through a computation written with [bind]. *)
Ltac emits_step :=
  lazymatch goal with
  | |- Eff.emits_from _ (Eff.bind _ _) _ => apply emits_bind
  | |- Eff.emits_from _ (Eff.ret _) _ => apply emits_ret
  | |- Eff.emits_from _ (Eff.emit _) _ =>
      apply emits_emit; [solve [auto with stable]|]
  | |- Eff.emits_from _ (Eff.throw_error_message _) _ =>
      apply emits_throw_error_message; [solve [auto with stable]|]
  | |- Eff.emits_from _ (Eff.throw _) _ => apply emits_throw
  | |- Eff.emits_from _ Eff.out_of_fuel _ => apply emits_out_of_fuel
  | |- Eff.emits_from _ (Eff.print_cerr _) _ =>
      apply emits_print_cerr; [solve [auto with stable]|]
  | |- Eff.emits_from _ (Eff.set_window_size _) _ =>
      apply emits_set_window_size; [solve [auto with stable]|]
  | |- Eff.emits_from Eff.anywhere (Eff.set_assets_folder _) _ =>
      apply emits_set_assets_folder
  | |- Eff.emits_from _ Eff.get_world _ => apply emits_get_world; intros ? ?
  | |- Eff.emits_from _ (if ?b then _ else _) _ => destruct b eqn:?
  | |- Eff.emits_from _ (match ?x with _ => _ end) _ => destruct x eqn:?
  end; cbv beta iota.

Ltac emits_run := repeat emits_step.

(** Normalises [filter_map] over the calls collected by [emits_run]. *)
Ltac calls_simpl :=
  repeat first
    [ rewrite filter_map_app
    | progress simpl
    | match goal with
      | H : App.filter_map _ _ = [] |- _ => rewrite H
      | H : (_ =? _)%Z = _ |- _ => rewrite H
      end ].

Section AppFacts.

Import Fs Audio Eff App.
Local Open Scope Z_scope.

Variable e : env.

Lemma emits_hint_gl attr value Q :
  Q (Returns tt) [SDL_GL_SetAttribute attr value] ->
  emits_from anywhere (hint_gl e attr value) Q.
Proof.
  intros H. unfold hint_gl. emits_run; simpl; exact H.
Qed.

(** The search for the asset root neither acquires nor releases. *)
Lemma emits_get_base_path fuel Q :
  (forall o cs, quiet cs -> Q o cs) ->
  emits_from anywhere (get_base_path e fuel) Q.
Proof.
  intros H. unfold get_base_path, find_assets_folder.
  emits_run; simpl; apply H; now split.
Qed.

(** What [get_base_path] returns is told by the static and by the file
    system, not by the rest of the world. *)
Lemma stable_resolves fuel base : stable (resolves e fuel base).
Proof.
  intros w t ce gw gh. unfold resolves, get_base_path, find_assets_folder,
    bind, get_world, emit, ret, throw, out_of_fuel, set_assets_folder.
  simpl. destruct (assets_folder w); [easy|].
  destruct (try_get_asset_path _ _ fuel (current_path _)) as [[found|]|];
    simpl; try easy.
  destruct (try_get_asset_path _ _ fuel (base_path e)) as [[found|]|];
    simpl; easy.
Qed.

Lemma get_base_path_caches fuel w p w' :
  get_base_path e fuel w = (Returns p, w') -> assets_folder w' = Some p.
Proof.
  unfold get_base_path, bind, get_world.
  destruct (assets_folder w) as [q|] eqn:E; simpl.
  - intros [= <- <-]. exact E.
  - destruct (find_assets_folder e fuel w) as [[q| |] w1]; simpl;
      try discriminate.
    now intros [= <- <-].
Qed.

(** Where the asset root resolves to [base], [get_base_path] returns it,
    and does so again afterwards. *)
Lemma emits_get_base_path_resolves base fuel Q :
  (forall cs, quiet cs -> Q (Returns base) cs) ->
  emits_from (resolves e fuel base) (get_base_path e fuel) Q.
Proof.
  intros H w Hw.
  destruct (emits_get_base_path fuel (fun _ cs => quiet cs) (fun _ _ q => q)
              w Logic.I) as (cs & Ht & _ & Hq).
  exists cs. split; [exact Ht|]. unfold resolves in *.
  destruct (get_base_path e fuel w) as [o w'] eqn:E. simpl in *. subst o.
  split; [|now apply H].
  apply get_base_path_caches in E.
  unfold get_base_path, bind, get_world. simpl. now rewrite E.
Qed.

Lemma emits_Application_ctor fuel title :
  emits_from anywhere (Application_ctor e fuel title)
    (fun o cs =>
       filter_map releases cs = [] /\
       match o with
       | Returns app =>
           al_device app = alcOpenDevice_result e /\
           al_context app = alcCreateContext_result e /\
           acquired cs = acquisition_order e
       | Throws _ => exists n, acquired cs = firstn n (acquisition_order e)
       | OutOfFuel => True
       end).
Proof.
  unfold Application_ctor, setupSDLWindow, setupOpenGL, setupImGui, Demo_Setup,
    LoadTextureFromFile.
  repeat (first [ apply emits_hint_gl
                | apply emits_get_base_path; intros [?|?|] ? [? ?]
                | emits_step ]).
  all: unfold acquired, acquisition_order; calls_simpl;
    destruct (alcOpenDevice_result e =? nullptr),
             (alcCreateContext_result e =? nullptr); simpl;
    repeat split; try reflexivity.
  all: first [ now exists 0%nat | now exists 1%nat | now exists 2%nat
             | now exists 3%nat | now exists 4%nat | now exists 5%nat
             | now exists 6%nat ].
Qed.


Lemma same_resources_refl a : same_resources a a.
Proof. now repeat split. Qed.

Lemma same_resources_trans a b c :
  same_resources a b -> same_resources b c -> same_resources a c.
Proof.
  unfold same_resources. intros (? & ? & ? & ? & ?) (? & ? & ? & ? & ?).
  repeat split; congruence.
Qed.

Lemma emits_updateWindowEvents evs : forall this,
  emits_from anywhere (updateWindowEvents evs this)
    (fun o cs => quiet cs /\ exists this', o = Returns this' /\ same_resources this this').
Proof.
  induction evs as [|event evs IH]; intros this; simpl.
  - emits_run. split; [now split | exists this; split; [reflexivity|apply same_resources_refl]].
  - do 2 emits_step. do 2 emits_step. apply emits_bind.
    destruct event; unfold Demo_SetDisplaySize; emits_run;
      (eapply emits_conseq; [|apply IH]);
      intros o cs (Hq & this' & -> & Hs);
      (split; [apply (quiet_app (_ :: _ :: _) cs); [now split | exact Hq]
              | exists this'; split; [reflexivity | exact Hs] ]).
Qed.

Lemma emits_Update f this :
  emits_from anywhere (Update f this)
    (fun o cs => quiet cs /\ exists this', o = Returns this' /\ same_resources this this').
Proof.
  unfold Update. apply emits_bind.
  eapply emits_conseq; [|apply emits_updateWindowEvents].
  intros o cs ([Ha Hr] & this' & -> & Hs).
  unfold Demo_Draw, Demo_ImGuiDraw. emits_run.
  all: split; [split; now calls_simpl | exists this'; now split].
Qed.

Lemma emits_main_loop frames : forall application,
  emits_from anywhere (main_loop frames application)
    (fun o cs =>
       quiet cs /\
       exists r, o = Returns r /\
                 forall application', r = Some application' ->
                                      same_resources application application').
Proof.
  induction frames as [|f frames IH]; intros application; simpl.
  - emits_run; (split; [apply quiet_nil|]); eexists; (split; [reflexivity|]).
    + discriminate.
    + intros ? [= <-]. apply same_resources_refl.
  - destruct (negb (IsDone application)).
    + apply emits_bind. eapply emits_conseq; [|apply emits_Update].
      intros o cs (Hq & this' & -> & Hs).
      eapply emits_conseq; [|apply IH].
      intros o' cs' (Hq' & r & -> & Hr).
      split; [now apply quiet_app|]. exists r. split; [reflexivity|].
      intros a' Ha'. eapply same_resources_trans; [exact Hs | now apply Hr].
    + emits_run. split; [apply quiet_nil|]. eexists. split; [reflexivity|].
      intros ? [= <-]. apply same_resources_refl.
Qed.

End AppFacts.

(* ================================================================== *)
(** * The lifecycle of the subsystems *)
(* ================================================================== *)

Section Lifecycle.

Import Fs Audio Eff App Examples.
Local Open Scope Z_scope.





(** C3, as the code has it: a construction that throws has made no release
    call at all, so nothing is released twice and nothing from the failed
    stage or a later one is released; what it had acquired up to the
    failure, an initial part of the order of acquisition, stays acquired,
    and [main] ends with status -1 without running the destructor. *)
Theorem failed_construction_releases_nothing e fuel frames what w' :
  Application_ctor e fuel (Some "Programming Fun App") initial_world
  = (Throws what, w') ->
  filter_map releases (trace w') = []
  /\ (exists n, acquired (trace w') = firstn n (acquisition_order e))
  /\ fst (main e fuel frames initial_world) = Some (-1)
  /\ trace (snd (main e fuel frames initial_world)) = trace w'.
Proof.
  intros H.
  destruct (emits_Application_ctor e fuel (Some "Programming Fun App")
              initial_world Logic.I) as (cs & Ht & _ & Hr & Ho).
  unfold main. rewrite H in *. simpl in *. rewrite Ht. auto.
Qed.

Lemma failed_construction_releases_nothing_witness :
  Application_ctor env_no_gl_context 5 (Some "Programming Fun App") initial_world
  = (Throws "Failed to create opengl context: error", world_no_gl_context_thrown)
  /\ filter_map releases (trace world_no_gl_context_thrown) = []
  /\ (exists n, acquired (trace world_no_gl_context_thrown)
                = firstn n (acquisition_order env_no_gl_context))
  /\ fst (main env_no_gl_context 5 two_frames initial_world) = Some (-1)
  /\ trace (snd (main env_no_gl_context 5 two_frames initial_world))
     = trace world_no_gl_context_thrown.
Proof.
  assert (E : Application_ctor env_no_gl_context 5 (Some "Programming Fun App")
                initial_world
              = (Throws "Failed to create opengl context: error",
                 world_no_gl_context_thrown))
    by (vm_compute; reflexivity).
  split; [exact E|].
  exact (failed_construction_releases_nothing env_no_gl_context 5 two_frames
           "Failed to create opengl context: error" world_no_gl_context_thrown E).
Defined.

(** C3 as stated fails: when the graphics context cannot be created
    (stage 2), the window of stage 1 has been created and is not
    released. *)
Lemma partial_teardown_counterexample :
  main env_no_gl_context 5 two_frames initial_world
  = (Some (-1), world_no_gl_context)
  /\ In (SDL_CreateWindow "Programming Fun App" 640 480 100)
        (trace world_no_gl_context)
  /\ acquired (trace world_no_gl_context) = [Window]
  /\ released (trace world_no_gl_context) = []
  /\ released (trace world_no_gl_context)
     <> rev (acquired (trace world_no_gl_context)).
Proof.
  repeat apply conj; try (vm_compute; reflexivity).
  - vm_compute. tauto.
  - vm_compute. discriminate.
Qed.

(** C10: with a null or an empty title the constructor throws before it
    has made any call, so that no window, context, device or asset has
    been created. *)
Theorem empty_title_acquires_nothing e fuel title w :
  title = None \/ title = Some EmptyString ->
  exists w',
    Application_ctor e fuel title w = (Throws "App title shouldn't be empty", w')
    /\ trace w' = trace w
    /\ acquired (trace w') = acquired (trace w)
    /\ assets_folder w' = assets_folder w.
Proof.
  intros [-> | ->]; eexists; (split; [reflexivity|]); simpl; auto.
Qed.

Lemma empty_title_acquires_nothing_witness :
  (Some EmptyString = None \/ Some EmptyString = Some EmptyString)
  /\ exists w',
       Application_ctor env_ok 5 (Some EmptyString) initial_world
       = (Throws "App title shouldn't be empty", w')
       /\ trace w' = trace initial_world
       /\ acquired (trace w') = acquired (trace initial_world)
       /\ assets_folder w' = assets_folder initial_world.
Proof.
  split; [right; reflexivity|].
  exact (empty_title_acquires_nothing env_ok 5 (Some EmptyString) initial_world
           (or_intror eq_refl)).
Defined.

End Lifecycle.

(* ================================================================== *)
(** * The asset root and the assets *)
(* ================================================================== *)

Section Assets.

Import Fs Audio Eff App Examples.
Local Open Scope Z_scope.

(** C7: once [get_base_path] has returned a path, every later call returns
    that path again, whatever the file system has become and with no fuel
    for a walk at all, and makes no call: the world it leaves is the world
    it found. *)
Theorem get_base_path_memoized e fuel w p w' :
  get_base_path e fuel w = (Returns p, w') ->
  forall e2 fuel2 w2,
    assets_folder w2 = assets_folder w' ->
    get_base_path e2 fuel2 w2 = (Returns p, w2).
Proof.
  intros H e2 fuel2 w2 Hsame.
  apply get_base_path_caches in H. rewrite H in Hsame.
  unfold get_base_path, bind, get_world. simpl. now rewrite Hsame.
Qed.

Lemma get_base_path_memoized_witness :
  get_base_path env_ok 5 initial_world
  = (Returns (mkpath (Some "C:/") ["proj"; "assets"]), world_resolved)
  /\ forall e2 fuel2 w2,
       assets_folder w2 = assets_folder world_resolved ->
       get_base_path e2 fuel2 w2
       = (Returns (mkpath (Some "C:/") ["proj"; "assets"]), w2).
Proof.
  assert (E : get_base_path env_ok 5 initial_world
              = (Returns (mkpath (Some "C:/") ["proj"; "assets"]), world_resolved))
    by (vm_compute; reflexivity).
  split; [exact E|].
  exact (get_base_path_memoized env_ok 5 initial_world _ world_resolved E).
Defined.

(** C8: a first call of [get_base_path] searches from the current
    directory; when that search finds a folder it is the result and
    [SDL_GetBasePath] is never called; only when that search comes back
    empty is the executable's directory searched, and when that search
    comes back empty too the call throws and the static stays
    uninitialised. *)
Theorem get_base_path_search_order e fuel w :
  assets_folder w = None ->
  let search := try_get_asset_path (platform_of e) (filesystem_of e) fuel in
  let r := get_base_path e fuel w in
  match search (current_path (filesystem_of e)) with
  | Some (Some found) =>
      fst r = Returns found
      /\ trace (snd r) = trace w ++ [fs_current_path]
      /\ assets_folder (snd r) = Some found
  | Some None =>
      match search (base_path e) with
      | Some (Some found) =>
          fst r = Returns found
          /\ trace (snd r) = trace w ++ [fs_current_path; SDL_GetBasePath; SDL_free]
          /\ assets_folder (snd r) = Some found
      | Some None =>
          fst r = Throws "Failed to find assets folder in parent folders"
          /\ trace (snd r) = trace w ++ [fs_current_path; SDL_GetBasePath; SDL_free]
          /\ assets_folder (snd r) = None
      | None => fst r = OutOfFuel
      end
  | None => fst r = OutOfFuel
  end.
Proof.
  intros H. cbv zeta.
  unfold get_base_path, find_assets_folder, bind, get_world. simpl. rewrite H.
  destruct (try_get_asset_path _ _ fuel (current_path _)) as [[found|]|]; simpl;
    [auto | | reflexivity].
  destruct (try_get_asset_path _ _ fuel (base_path e)) as [[found|]|]; simpl;
    rewrite <- ?app_assoc; auto.
Qed.

Lemma get_base_path_search_order_witness :
  assets_folder initial_world = None
  /\ fst (get_base_path env_ok 5 initial_world)
     = Returns (mkpath (Some "C:/") ["proj"; "assets"])
  /\ trace (snd (get_base_path env_ok 5 initial_world)) = [fs_current_path].
Proof.
  split; [reflexivity|].
  pose proof (get_base_path_search_order env_ok 5 initial_world eq_refl) as H.
  cbv zeta in H.
  replace (try_get_asset_path (platform_of env_ok) (filesystem_of env_ok) 5
             (current_path (filesystem_of env_ok)))
    with (Some (Some (mkpath (Some "C:/") ["proj"; "assets"]))) in H
    by (vm_compute; reflexivity).
  destruct H as (H1 & H2 & _). split; [exact H1 | exact H2].
Defined.

(** C5, as the code has it: mono 8-bit unsigned maps to [AL_FORMAT_MONO8]
    and stereo 16-bit signed to [AL_FORMAT_STEREO16]; a combination outside
    the four standard ones, with no float extension on the backend, maps to
    [AL_NONE], and [Demo::Setup] does not fail on that: with the asset root
    found and the WAV file and the OGG file decoded it returns, having
    uploaded the WAV buffer with the format [AL_NONE]. *)
Theorem unsupported_format_is_AL_NONE e fuel this w base spec len :
  fst (get_base_path e fuel w) = Returns base ->
  SDL_LoadWAV_result e = Some (spec, len) ->
  fst (fst (stb_vorbis_result e)) <> -1 ->
  standard spec = false ->
  AL_EXT_FLOAT32 (al_backend e) = false ->
  (forall al f, get_openal_format al (mkspec f AUDIO_U8 1) = AL_FORMAT_MONO8)
  /\ (forall al f, get_openal_format al (mkspec f AUDIO_S16SYS 2) = AL_FORMAT_STEREO16)
  /\ get_openal_format (al_backend e) spec = AL_NONE
  /\ exists this' w',
       Demo_Setup e fuel this w = (Returns this', w')
       /\ In (alBufferData (fst (alGenBuffers_result e)) AL_NONE
                (narrow_cast_ALsizei len) (freq spec))
             (trace w').
Proof.
  intros Hbase Hwav Hogg Hstd Hext.
  assert (Hnone : get_openal_format (al_backend e) spec = AL_NONE).
  { unfold get_openal_format, standard in *. rewrite Hext.
    destruct (channels spec =? 1), (channels spec =? 2),
      (format spec =? AUDIO_U8), (format spec =? AUDIO_S16SYS),
      (format spec =? AUDIO_F32SYS); simpl in *; congruence. }
  split; [reflexivity|]. split; [reflexivity|]. split; [exact Hnone|].
  assert (H : emits_from (resolves e fuel base) (Demo_Setup e fuel this)
                (fun o cs =>
                   (exists this', o = Returns this')
                   /\ In (alBufferData (fst (alGenBuffers_result e)) AL_NONE
                            (narrow_cast_ALsizei len) (freq spec)) cs)).
  { destruct (stb_vorbis_result e) as [[samples chans] rate] eqn:Hv.
    simpl in Hogg. apply Z.eqb_neq in Hogg.
    unfold Demo_Setup, LoadTextureFromFile.
    rewrite Hwav, Hv. cbv beta iota. rewrite Hogg, Hnone.
    pose proof (stable_resolves e fuel base).
    repeat (first [ apply emits_get_base_path_resolves; intros ? _
                  | emits_step ]).
    all: split; [eexists; reflexivity|];
      repeat (first [rewrite in_app_iff | progress simpl]); tauto. }
  destruct (H w Hbase) as (cs & Ht & _ & [this' Hret] & Hin).
  exists this', (snd (Demo_Setup e fuel this w)). split.
  - rewrite <- Hret. now destruct (Demo_Setup e fuel this w).
  - rewrite Ht. apply in_or_app. now right.
Qed.

Lemma unsupported_format_is_AL_NONE_witness :
  fst (get_base_path env_wav_s32 5 initial_world)
  = Returns (mkpath (Some "C:/") ["proj"; "assets"])
  /\ SDL_LoadWAV_result env_wav_s32 = Some (wav_s32, 1000)
  /\ standard wav_s32 = false
  /\ get_openal_format (al_backend env_wav_s32) wav_s32 = AL_NONE
  /\ exists this' w',
       Demo_Setup env_wav_s32 5 Demo_default initial_world = (Returns this', w')
       /\ In (alBufferData (fst (alGenBuffers_result env_wav_s32)) AL_NONE
                (narrow_cast_ALsizei 1000) (freq wav_s32))
             (trace w').
Proof.
  assert (E : fst (get_base_path env_wav_s32 5 initial_world)
              = Returns (mkpath (Some "C:/") ["proj"; "assets"]))
    by (vm_compute; reflexivity).
  split; [exact E|]. split; [reflexivity|]. split; [reflexivity|].
  apply (unsupported_format_is_AL_NONE env_wav_s32 5 Demo_default initial_world
           _ wav_s32 1000 E);
    [reflexivity | discriminate | reflexivity | reflexivity].
Defined.

(** C5 as stated fails: a WAV clip in a signed 32-bit format, on a backend
    without the float extension, does not stop the construction; the
    program runs to its normal end and has uploaded the clip with format
    [AL_NONE]. *)
Lemma unsupported_format_counterexample :
  standard wav_s32 = false
  /\ AL_EXT_FLOAT32 (al_backend env_wav_s32) = false
  /\ fst (main env_wav_s32 5 two_frames initial_world) = Some 0
  /\ In (alBufferData 1 AL_NONE 1000 44100)
        (trace (snd (main env_wav_s32 5 two_frames initial_world)))
  /\ cerr (snd (main env_wav_s32 5 two_frames initial_world)) = [].
Proof.
  repeat apply conj; try (vm_compute; reflexivity).
  vm_compute. tauto.
Qed.







(** The whole run with the image missing: the program reaches its normal
    end, shows the fallback text and deletes no texture. *)
Lemma run_without_image :
  fst (main env_no_image 5 two_frames initial_world) = Some 0
  /\ In (ImGui_Text_s "Failed to load texture image...")
        (trace (snd (main env_no_image 5 two_frames initial_world)))
  /\ filter (fun c => match c with
                      | glGenTextures _ | glDeleteTextures _ => true
                      | _ => false
                      end)
            (trace (snd (main env_no_image 5 two_frames initial_world))) = [].
Proof.
  repeat apply conj; try (vm_compute; reflexivity).
  vm_compute. tauto.
Qed.


End Assets.

(* ================================================================== *)
(** * More about the upward walk *)
(* ================================================================== *)

Section WalkMore.

Import Fs Examples.

Variable fs : filesystem.

Lemma normal_collapse ns : forall acc,
  normal acc = true -> normal (collapse acc ns) = true.
Proof.
  induction ns as [|n ns IH]; intros acc Hacc; simpl.
  - now rewrite normal_rev.
  - destruct (n =? ".") eqn:E1; [now apply IH|].
    destruct (n =? "..") eqn:E2; apply IH.
    + now apply normal_tl.
    + simpl. unfold plain. now rewrite E1, E2, Hacc.
Qed.

Lemma collapse_snoc ns x :
  collapse [] (collapse [] ns ++ [x]) = collapse [] (ns ++ [x]).
Proof.
  rewrite (collapse_app ns), (collapse_app (collapse [] ns)).
  now rewrite (collapse_normal (collapse [] ns)) by now apply normal_collapse.
Qed.

(** On Windows one iteration from a path and from its normal form look at
    the same folder and go on from the same parent. *)
Lemma walk_windows_collapse rt fuel r ns :
  walk Windows fs rt fuel (mkpath (Some r) ns)
  = walk Windows fs rt fuel (mkpath (Some r) (collapse [] ns)).
Proof.
  destruct fuel as [|fuel]; [reflexivity|].
  cbn [walk]. cbv zeta. unfold absolute, append. cbn [root names].
  now rewrite !collapse_snoc.
Qed.

(** Whatever the walk returns has been seen to be a directory, is an
    absolute path, and has [assets] for its last name. *)
Lemma walk_sound pl rt fuel : forall p found,
  walk pl fs rt fuel p = Some (Some found) ->
  is_directory pl fs found = true
  /\ root found <> None
  /\ exists ns, names found = ns ++ ["assets"].
Proof.
  induction fuel as [|fuel IH]; intros p found; [discriminate|].
  cbn [walk]. cbv zeta.
  destruct (is_directory pl fs (absolute pl fs (p // "assets"))) eqn:E.
  - intros [= <-]. split; [exact E|].
    unfold absolute, append. cbn [root names].
    destruct pl, (root p); cbn [root names]; (split; [discriminate|]).
    + now exists (names p).
    + exists (cwd fs ++ names p). now rewrite app_assoc.
    + exists (collapse [] (names p)). rewrite collapse_app. simpl.
      now rewrite rev_involutive.
    + exists (collapse [] (cwd fs ++ names p)).
      rewrite app_assoc, collapse_app. simpl. now rewrite rev_involutive.
  - destruct (negb _); [apply IH | discriminate].
Qed.

End WalkMore.

Section WalkExtras.

Import Fs Examples.

(** X1: a path returned by [try_get_asset_path], from any start and on
    either platform, is absolute, has [assets] for its last name, and was
    an existing directory when it was looked at. *)
Theorem try_get_asset_path_sound pl fs fuel start found :
  try_get_asset_path pl fs fuel start = Some (Some found) ->
  is_directory pl fs found = true
  /\ root found <> None
  /\ exists ns, names found = ns ++ ["assets"].
Proof. apply walk_sound. Qed.

Lemma try_get_asset_path_sound_witness :
  try_get_asset_path Posix posix_project 5 (mkpath None [".."])
  = Some (Some (mkpath (Some "/") ["proj"; "bin"; ".."; "assets"]))
  /\ is_directory Posix posix_project
       (mkpath (Some "/") ["proj"; "bin"; ".."; "assets"]) = true
  /\ root (mkpath (Some "/") ["proj"; "bin"; ".."; "assets"]) <> None
  /\ exists ns, names (mkpath (Some "/") ["proj"; "bin"; ".."; "assets"])
                = ns ++ ["assets"].
Proof.
  assert (E : try_get_asset_path Posix posix_project 5 (mkpath None [".."])
              = Some (Some (mkpath (Some "/") ["proj"; "bin"; ".."; "assets"])))
    by (vm_compute; reflexivity).
  split; [exact E|].
  exact (try_get_asset_path_sound Posix posix_project 5 (mkpath None [".."]) _ E).
Defined.

(** X2: on Windows the walk from an absolute path does not depend on the
    ["."] and [".."] the path is written with: it is the walk from the
    normalised path. *)
Theorem try_get_asset_path_windows_normalises fs fuel r ns :
  try_get_asset_path Windows fs fuel (mkpath (Some r) ns)
  = try_get_asset_path Windows fs fuel (mkpath (Some r) (collapse [] ns)).
Proof. unfold try_get_asset_path. apply walk_windows_collapse. Qed.

(** X3: on Windows the walk from any absolute path on the volume ends
    within as many iterations as the normalised path has names, and one
    more. *)
Theorem try_get_asset_path_windows_bounded fs fuel ns :
  length (collapse [] ns) < fuel ->
  try_get_asset_path Windows fs fuel (at_root fs ns) <> None.
Proof.
  intros Hf. unfold try_get_asset_path, at_root.
  rewrite walk_windows_collapse.
  change (root_path {| root := Some (volume fs); names := ns |})
    with (at_root fs []).
  rewrite <- (rev_involutive (collapse [] ns)).
  apply walk_windows_terminates.
  - rewrite normal_rev. now apply normal_collapse.
  - now rewrite length_rev.
Qed.

Lemma try_get_asset_path_windows_bounded_witness :
  length (collapse [] ["proj"; "."; "bin"; ".."; "bin"]) < 3
  /\ try_get_asset_path Windows fs_no_assets 3
       (at_root fs_no_assets ["proj"; "."; "bin"; ".."; "bin"]) <> None.
Proof.
  assert (H : length (collapse [] ["proj"; "."; "bin"; ".."; "bin"]) < 3)
    by (simpl; lia).
  split; [exact H|].
  exact (try_get_asset_path_windows_bounded fs_no_assets 3 _ H).
Defined.

(** X4: on Windows, for an absolute directory given by plain names and with
    fuel for the whole way up, the walk returns empty exactly when neither
    the directory nor any ancestor of it below the root has an [assets]
    child; what the root has does not count unless the root is the
    start. *)
Theorem try_get_asset_path_windows_empty_iff fs d fuel :
  normal d = true ->
  length d < fuel ->
  (try_get_asset_path Windows fs fuel (at_root fs d) = Some None
   <-> forall j, j < length d \/ j = 0 ->
                 dirs fs (ancestor d j ++ ["assets"]) = false).
Proof.
  intros Hn Hf. split; [|now apply try_get_asset_path_windows_empty].
  unfold try_get_asset_path.
  change (root_path (at_root fs d)) with (at_root fs []). cbv zeta.
  unfold ancestor. rewrite <- (length_rev d) in *.
  rewrite <- (rev_involutive d) at 1.
  assert (Hs : normal (rev d) = true) by now rewrite normal_rev.
  clear Hn. revert Hs Hf. generalize (rev d) as s. clear d.
  induction fuel as [|fuel IH]; intros s Hs Hf; [lia|].
  rewrite walk_windows_step by assumption.
  destruct (dirs fs (rev s ++ ["assets"])) eqn:E; [discriminate|].
  destruct s as [|x [|y t]].
  - intros _ j Hj. assert (j = 0) as -> by (simpl in Hj; lia). exact E.
  - intros _ j Hj. assert (j = 0) as -> by (simpl in Hj; lia). exact E.
  - cbn [tl]. intros H [|j] Hj; [exact E|].
    apply (IH (y :: t)).
    + now apply normal_tl in Hs.
    + simpl in *. lia.
    + exact H.
    + left. simpl in *. lia.
Qed.

Lemma try_get_asset_path_windows_empty_iff_witness :
  normal ["proj"; "bin"] = true
  /\ length ["proj"; "bin"] < 3
  /\ (try_get_asset_path Windows fs_assets_in_root 3
        (at_root fs_assets_in_root ["proj"; "bin"]) = Some None
      <-> forall j, j < length ["proj"; "bin"] \/ j = 0 ->
                    dirs fs_assets_in_root (ancestor ["proj"; "bin"] j ++ ["assets"])
                    = false).
Proof.
  assert (H1 : normal ["proj"; "bin"] = true) by reflexivity.
  assert (H2 : length ["proj"; "bin"] < 3) by (simpl; lia).
  split; [exact H1|]. split; [exact H2|].
  exact (try_get_asset_path_windows_empty_iff fs_assets_in_root
           ["proj"; "bin"] 3 H1 H2).
Defined.

End WalkExtras.

(* ================================================================== *)
(** * More about the asset root *)
(* ================================================================== *)

Section RootExtras.

Import Fs Audio Eff App Examples Cases.
Local Open Scope Z_scope.





(** X7: the folder a first call of [get_base_path] returns and stores is an
    absolute path with [assets] for its last name that was an existing
    directory during the call. *)
Theorem get_base_path_is_assets_directory e fuel w found w' :
  assets_folder w = None ->
  get_base_path e fuel w = (Returns found, w') ->
  is_directory (platform_of e) (filesystem_of e) found = true
  /\ root found <> None
  /\ (exists ns, names found = ns ++ ["assets"])
  /\ assets_folder w' = Some found.
Proof.
  intros Hw H.
  assert (Hc := get_base_path_caches e fuel w found w' H).
  revert H. unfold get_base_path, find_assets_folder, bind, get_world. simpl.
  rewrite Hw. simpl.
  destruct (try_get_asset_path _ _ fuel (current_path _)) as [[p|]|] eqn:E1;
    simpl; try discriminate.
  - intros [= <- _].
    destruct (walk_sound _ _ _ _ _ _ E1) as (? & ? & ?). auto.
  - destruct (try_get_asset_path _ _ fuel (base_path e)) as [[p|]|] eqn:E2;
      simpl; try discriminate.
    intros [= <- _].
    destruct (walk_sound _ _ _ _ _ _ E2) as (? & ? & ?). auto.
Qed.

Lemma get_base_path_is_assets_directory_witness :
  assets_folder initial_world = None
  /\ get_base_path env_ok 5 initial_world
     = (Returns (mkpath (Some "C:/") ["proj"; "assets"]), world_resolved)
  /\ is_directory (platform_of env_ok) (filesystem_of env_ok)
       (mkpath (Some "C:/") ["proj"; "assets"]) = true.
Proof.
  assert (E : get_base_path env_ok 5 initial_world
              = (Returns (mkpath (Some "C:/") ["proj"; "assets"]), world_resolved))
    by (vm_compute; reflexivity).
  split; [reflexivity|]. split; [exact E|].
  exact (proj1 (get_base_path_is_assets_directory env_ok 5 initial_world _
                  world_resolved eq_refl E)).
Defined.

End RootExtras.

(* ================================================================== *)
(** * More about the audio formats *)
(* ================================================================== *)

Section AudioExtras.

Import Audio App.
Local Open Scope Z_scope.

(** X8: on the four standard combinations the mapping never answers
    [AL_NONE] and loses nothing: the format returned tells the number of
    channels and the sample format, whatever the backend. *)
Theorem get_openal_format_standard al al' s1 s2 :
  standard s1 = true ->
  standard s2 = true ->
  get_openal_format al s1 <> AL_NONE
  /\ (get_openal_format al s1 = get_openal_format al' s2 ->
      channels s1 = channels s2 /\ format s1 = format s2).
Proof.
  unfold standard, get_openal_format.
  destruct s1 as [f1 m1 c1], s2 as [f2 m2 c2]. cbn [channels format].
  intros H1 H2.
  destruct (c1 =? 1) eqn:A1, (c1 =? 2) eqn:A2, (m1 =? AUDIO_U8) eqn:A3,
    (m1 =? AUDIO_S16SYS) eqn:A4; try discriminate H1;
  destruct (c2 =? 1) eqn:B1, (c2 =? 2) eqn:B2, (m2 =? AUDIO_U8) eqn:B3,
    (m2 =? AUDIO_S16SYS) eqn:B4; try discriminate H2;
  cbn [andb]; (split; [discriminate|]); intros E; try discriminate E;
  repeat match goal with
    | H : (_ =? _) = true |- _ => apply Z.eqb_eq in H
    | H : (_ =? _) = false |- _ => apply Z.eqb_neq in H
    end;
  cbv [AUDIO_U8 AUDIO_S16SYS AUDIO_S16LSB] in *; lia.
Qed.

Lemma get_openal_format_standard_witness :
  standard (mkspec 44100 AUDIO_S16SYS 1) = true
  /\ standard (mkspec 22050 AUDIO_S16SYS 1) = true
  /\ get_openal_format (mkbackend false 0 0) (mkspec 44100 AUDIO_S16SYS 1)
     <> AL_NONE
  /\ (get_openal_format (mkbackend false 0 0) (mkspec 44100 AUDIO_S16SYS 1)
      = get_openal_format (mkbackend true 7 8) (mkspec 22050 AUDIO_S16SYS 1) ->
      channels (mkspec 44100 AUDIO_S16SYS 1) = channels (mkspec 22050 AUDIO_S16SYS 1)
      /\ format (mkspec 44100 AUDIO_S16SYS 1) = format (mkspec 22050 AUDIO_S16SYS 1)).
Proof.
  split; [reflexivity|]. split; [reflexivity|].
  exact (get_openal_format_standard (mkbackend false 0 0) (mkbackend true 7 8)
           (mkspec 44100 AUDIO_S16SYS 1) (mkspec 22050 AUDIO_S16SYS 1)
           eq_refl eq_refl).
Defined.

(** X9: on a backend without the float extension the mapping answers
    [AL_NONE] for exactly the combinations that are not standard. *)
Theorem get_openal_format_none_iff al spec :
  AL_EXT_FLOAT32 al = false ->
  (get_openal_format al spec = AL_NONE <-> standard spec = false).
Proof.
  unfold standard, get_openal_format. intros ->.
  destruct (channels spec =? 1), (channels spec =? 2),
    (format spec =? AUDIO_U8), (format spec =? AUDIO_S16SYS),
    (format spec =? AUDIO_F32SYS); simpl; split; intros H;
    try reflexivity; discriminate H.
Qed.

Lemma get_openal_format_none_iff_witness :
  AL_EXT_FLOAT32 (mkbackend false 0 0) = false
  /\ (get_openal_format (mkbackend false 0 0) (mkspec 44100 AUDIO_F32SYS 2) = AL_NONE
      <-> standard (mkspec 44100 AUDIO_F32SYS 2) = false).
Proof.
  split; [reflexivity|].
  exact (get_openal_format_none_iff (mkbackend false 0 0)
           (mkspec 44100 AUDIO_F32SYS 2) eq_refl).
Defined.

(** X10: with the float extension present, mono and stereo 32-bit float
    map to the values the backend gives for ["AL_FORMAT_MONO_FLOAT32"] and
    ["AL_FORMAT_STEREO_FLOAT32"]; and whatever the backend, a channel
    count other than 1 and 2 maps to [AL_NONE]. *)
Theorem get_openal_format_float_and_channels al spec :
  (AL_EXT_FLOAT32 al = true ->
   format spec = AUDIO_F32SYS ->
   (channels spec = 1 -> get_openal_format al spec = AL_FORMAT_MONO_FLOAT32 al)
   /\ (channels spec = 2 -> get_openal_format al spec = AL_FORMAT_STEREO_FLOAT32 al))
  /\ (channels spec <> 1 -> channels spec <> 2 ->
      get_openal_format al spec = AL_NONE).
Proof.
  unfold get_openal_format. split.
  - intros -> ->. split; intros ->; reflexivity.
  - intros H1 H2. apply Z.eqb_neq in H1, H2. now rewrite H1, H2.
Qed.

Lemma get_openal_format_float_and_channels_witness :
  AL_EXT_FLOAT32 (mkbackend true 0x10010 0x10011) = true
  /\ get_openal_format (mkbackend true 0x10010 0x10011)
       (mkspec 48000 AUDIO_F32SYS 2) = 0x10011
  /\ get_openal_format (mkbackend true 0x10010 0x10011)
       (mkspec 48000 AUDIO_F32SYS 6) = AL_NONE.
Proof.
  split; [reflexivity|].
  pose proof (get_openal_format_float_and_channels (mkbackend true 0x10010 0x10011)
                (mkspec 48000 AUDIO_F32SYS 2)) as [H _].
  pose proof (get_openal_format_float_and_channels (mkbackend true 0x10010 0x10011)
                (mkspec 48000 AUDIO_F32SYS 6)) as [_ H'].
  split.
  - exact (proj2 (H eq_refl eq_refl) eq_refl).
  - apply H'; discriminate.
Defined.

(** X11: [gsl::narrow_cast<ALsizei>] leaves a WAV length below 2^31 as it
    is and turns a length from 2^31 on, below 2^32, into the negative
    number 2^32 less; the size handed on is always a 32-bit signed
    number. *)
Theorem narrow_cast_ALsizei_range wavLength :
  0 <= wavLength < 2 ^ 32 ->
  - 2 ^ 31 <= narrow_cast_ALsizei wavLength < 2 ^ 31
  /\ (wavLength < 2 ^ 31 -> narrow_cast_ALsizei wavLength = wavLength)
  /\ (2 ^ 31 <= wavLength ->
      narrow_cast_ALsizei wavLength = wavLength - 2 ^ 32).
Proof.
  intros H. unfold narrow_cast_ALsizei.
  assert (H31 : 2 ^ 31 = 2147483648) by reflexivity.
  assert (H32 : 2 ^ 32 = 4294967296) by reflexivity.
  rewrite H31, H32 in *.
  split; [|split].
  - pose proof (Z.mod_pos_bound (wavLength + 2147483648) 4294967296). lia.
  - intros Hlt. rewrite Z.mod_small by lia. lia.
  - intros Hge.
    replace (wavLength + 2147483648)
      with (wavLength - 2147483648 + 1 * 4294967296) by lia.
    rewrite Z.mod_add by lia. rewrite Z.mod_small by lia. lia.
Qed.

Lemma narrow_cast_ALsizei_range_witness :
  0 <= 3000000000 < 2 ^ 32
  /\ narrow_cast_ALsizei 3000000000 = 3000000000 - 2 ^ 32.
Proof.
  assert (H : 0 <= 3000000000 < 2 ^ 32) by (split; [lia | reflexivity]).
  split; [exact H|].
  apply (narrow_cast_ALsizei_range 3000000000 H). discriminate.
Defined.

End AudioExtras.

(* ================================================================== *)
(** * More about the frames *)
(* ================================================================== *)

Section FrameFacts.

Import Fs Audio Eff App Obs.
Local Open Scope Z_scope.

Lemma emits_updateWindowEvents_obs evs : forall this,
  emits_from anywhere (updateWindowEvents evs this)
    (fun o cs =>
       o = Returns (if existsb quit_event evs then set_is_done this else this)
       /\ viewports cs = resizes evs
       /\ played cs = [] /\ swapped cs = []).
Proof.
  induction evs as [|event evs IH]; intros this; simpl.
  - emits_run. now repeat split.
  - do 2 emits_step. do 2 emits_step. apply emits_bind.
    destruct event; unfold Demo_SetDisplaySize; emits_run;
      (eapply emits_conseq; [|apply IH]);
      intros o cs (-> & Hv & Hp & Hs);
      unfold viewports, played, swapped in *;
      rewrite !filter_map_app, ?Hv, ?Hp, ?Hs; simpl;
      (split; [|now repeat split]);
      now destruct (existsb quit_event evs).
Qed.

Lemma emits_Update_obs f this :
  emits_from anywhere (Update f this)
    (fun o cs =>
       o = Returns (if quits f then set_is_done this else this)
       /\ viewports cs = resizes (events f)
       /\ played cs = asked (alSourceHandles (demo this)) f
       /\ swapped cs = [ptr_window this]).
Proof.
  unfold Update. apply emits_bind.
  eapply emits_conseq; [|apply emits_updateWindowEvents_obs].
  intros o cs (-> & Hv & Hp & Hs).
  unfold Demo_Draw, Demo_ImGuiDraw, quits, asked. emits_run.
  all: unfold viewports, played, swapped in *;
    rewrite !filter_map_app, ?Hv, ?Hp, ?Hs;
    destruct (existsb quit_event (events f)); simpl in *;
    repeat match goal with H : _ = true |- _ => rewrite H | H : _ = false |- _ => rewrite H end;
    simpl; rewrite ?app_nil_r; now repeat split.
Qed.

Lemma emits_main_loop_obs frames : forall application,
  is_done application = false ->
  emits_from anywhere (main_loop frames application)
    (fun o cs =>
       o = Returns (if existsb quits frames
                    then Some (set_is_done application) else None)
       /\ viewports cs = flat_map (fun f => resizes (events f)) (rendered frames)
       /\ played cs
          = flat_map (asked (alSourceHandles (demo application))) (rendered frames)
       /\ swapped cs = map (fun _ => ptr_window application) (rendered frames)).
Proof.
  induction frames as [|f frames IH]; intros application Hd; simpl;
    unfold IsDone; rewrite Hd; simpl.
  - emits_run. now repeat split.
  - apply emits_bind. eapply emits_conseq; [|apply emits_Update_obs].
    intros o cs (-> & Hv & Hp & Hs).
    destruct (quits f) eqn:Hq; simpl.
    + destruct frames; simpl; emits_run;
        rewrite ?app_nil_r; simpl; rewrite ?app_nil_r; now repeat split.
    + eapply emits_conseq; [|apply (IH application Hd)].
      intros o' cs' (-> & Hv' & Hp' & Hs').
      unfold viewports, played, swapped in *.
      rewrite !filter_map_app, Hv, Hp, Hs, Hv', Hp', Hs'. now repeat split.
Qed.

End FrameFacts.

(* ================================================================== *)
(** * More about a whole run *)
(* ================================================================== *)

(** Finds a call in a list built with [::] and [++]. *)
Ltac find_call :=
  lazymatch goal with
  | |- In _ (_ ++ _) =>
      first [ apply in_or_app; left; find_call
            | apply in_or_app; right; find_call ]
  | |- In _ (_ :: _) => first [ left; reflexivity | right; find_call ]
  end.

Section RunFacts.

Import Fs Audio Eff App Obs.
Local Open Scope Z_scope.

Variable e : env.

(** The search for the asset root makes look-up calls only. *)
Lemma emits_get_base_path_lookup fuel Q :
  (forall o cs, forallb lookup cs = true -> Q o cs) ->
  emits_from anywhere (get_base_path e fuel) Q.
Proof.
  intros H. unfold get_base_path, find_assets_folder.
  emits_run; simpl; apply H; reflexivity.
Qed.

Lemma filter_map_lookup {B} (f : call -> option B) cs :
  (forall c, lookup c = true -> f c = None) ->
  forallb lookup cs = true -> filter_map f cs = [].
Proof.
  intros Hf. induction cs as [|c cs IH]; simpl; [reflexivity|].
  intros H. apply andb_prop in H as [Hc Hcs]. now rewrite (Hf c Hc), IH.
Qed.

Lemma lookup_quiet cs :
  forallb lookup cs = true ->
  played cs = [] /\ swapped cs = [] /\ filter_map releases cs = [].
Proof.
  intros H. repeat split; apply filter_map_lookup; try exact H;
    intros c; now destruct c.
Qed.

(** What a construction that returns has made of the answers of the
    libraries. *)
Lemma emits_Application_ctor_handles fuel title :
  emits_from anywhere (Application_ctor e fuel title)
    (fun o cs =>
       forall app, o = Returns app ->
         (ptr_window app = SDL_CreateWindow_result e
          /\ gl_context app = SDL_GL_CreateContext_result e
          /\ al_device app = alcOpenDevice_result e
          /\ al_context app = alcCreateContext_result e
          /\ is_done app = false)
         /\ (alBufferHandles (demo app) = alGenBuffers_result e
             /\ alSourceHandles (demo app) = alGenSources_result e
             /\ example_image (demo app)
                = match stbi_load_result e with
                  | Some (w, h) => mkimage (glGenTextures_result e) w h true
                  | None => mkimage 0 0 0 false
                  end)
         /\ (played cs = [] /\ swapped cs = [] /\ filter_map releases cs = [])
         /\ (In (SDL_GL_CreateContext (SDL_CreateWindow_result e)
                   (SDL_GL_CreateContext_result e)) cs
             /\ In (alcOpenDevice (alcOpenDevice_result e)) cs
             /\ In (alcCreateContext (alcOpenDevice_result e)
                      (alcCreateContext_result e)) cs
             /\ In (alGenBuffers 2 (alGenBuffers_result e)) cs
             /\ In (alGenSources 2 (alGenSources_result e)) cs
             /\ (stbi_load_result e <> None ->
                 In (glGenTextures (glGenTextures_result e)) cs))).
Proof.
  unfold Application_ctor, setupSDLWindow, setupOpenGL, setupImGui, Demo_Setup,
    LoadTextureFromFile.
  repeat (first [ apply emits_hint_gl
                | apply emits_get_base_path_lookup; intros [?|?|] ? ?
                | emits_step ]).
  all: intros app Happ; try discriminate Happ; injection Happ as <-.
  all: repeat match goal with
         | H : forallb lookup ?cs = true |- _ =>
             destruct (lookup_quiet cs H) as (? & ? & ?); clear H
         end.
  all: split; [now repeat split|].
  all: split; [now repeat split|].
  all: split; [unfold played, swapped in *; now calls_simpl|].
  all: repeat apply conj; try (intros Hne; congruence); try intros _;
    find_call.
Qed.

(** The destructor makes these calls and no other. *)
Lemma emits_Application_dtor_calls app :
  emits_from anywhere (Application_dtor app)
    (fun o cs =>
       o = Returns tt
       /\ cs = (if loaded (example_image (demo app))
                then [glDeleteTextures (handle (example_image (demo app)))]
                else [])
               ++ [alDeleteSources 2 (alSourceHandles (demo app));
                   alDeleteBuffers 2 (alBufferHandles (demo app));
                   alcMakeContextCurrent nullptr;
                   alcDestroyContext (al_context app);
                   alcCloseDevice (al_device app);
                   ImGui_ImplOpenGL3_Shutdown;
                   ImGui_ImplSDL2_Shutdown;
                   ImGui_DestroyContext;
                   SDL_GL_DeleteContext (gl_context app);
                   SDL_DestroyWindow (ptr_window app);
                   SDL_Quit]).
Proof.
  unfold Application_dtor, Demo_Shutdown. emits_run; now split.
Qed.

End RunFacts.

Section RunExtras.

Import Fs Audio Eff App Obs Examples Cases.
Local Open Scope Z_scope.

(** What a run from the initial world is made of, when it ends with
    status 0. *)
Lemma main_exit_0 e fuel frames w :
  main e fuel frames initial_world = (Some 0, w) ->
  exists app cs1 cs2 cs3,
    fst (Application_ctor e fuel (Some "Programming Fun App") initial_world)
    = Returns app
    /\ trace w = (cs1 ++ cs2) ++ cs3
    /\ (ptr_window app = SDL_CreateWindow_result e
        /\ gl_context app = SDL_GL_CreateContext_result e
        /\ al_device app = alcOpenDevice_result e
        /\ al_context app = alcCreateContext_result e
        /\ is_done app = false)
    /\ (alBufferHandles (demo app) = alGenBuffers_result e
        /\ alSourceHandles (demo app) = alGenSources_result e
        /\ example_image (demo app)
           = match stbi_load_result e with
             | Some (w, h) => mkimage (glGenTextures_result e) w h true
             | None => mkimage 0 0 0 false
             end)
    /\ (played cs1 = [] /\ swapped cs1 = [] /\ filter_map releases cs1 = [])
    /\ (In (SDL_GL_CreateContext (SDL_CreateWindow_result e)
              (SDL_GL_CreateContext_result e)) cs1
        /\ In (alcOpenDevice (alcOpenDevice_result e)) cs1
        /\ In (alcCreateContext (alcOpenDevice_result e)
                 (alcCreateContext_result e)) cs1
        /\ In (alGenBuffers 2 (alGenBuffers_result e)) cs1
        /\ In (alGenSources 2 (alGenSources_result e)) cs1
        /\ (stbi_load_result e <> None ->
            In (glGenTextures (glGenTextures_result e)) cs1))
    /\ existsb quits frames = true
    /\ (played cs2 = flat_map (asked (alGenSources_result e)) (rendered frames)
        /\ swapped cs2 = map (fun _ => SDL_CreateWindow_result e) (rendered frames)
        /\ filter_map releases cs2 = [])
    /\ cs3 = shutdown_calls e.
Proof.
  unfold main.
  destruct (emits_Application_ctor_handles e fuel (Some "Programming Fun App")
              initial_world Logic.I) as (cs1 & Ht1 & _ & H1).
  destruct (Application_ctor e fuel _ initial_world) as [[app|what|] w1];
    simpl in Ht1, H1; try discriminate.
  destruct (H1 app eq_refl) as (Hf & Hd & Hq1 & Hin).
  destruct Hf as (Hwin & Hgl & Hdev & Hctx & Hdone).
  destruct (emits_main_loop_obs frames app Hdone w1 Logic.I)
    as (cs2 & Ht2 & _ & Hret & _ & Hp2 & Hs2).
  destruct (emits_main_loop frames app w1 Logic.I)
    as (cs2' & Ht2' & _ & [_ Hr2] & _).
  rewrite Ht2 in Ht2'. apply app_inv_head in Ht2'. subst cs2'.
  destruct (main_loop frames app w1) as [o2 w2]. simpl in Ht2, Hret. subst o2.
  destruct (existsb quits frames) eqn:Hq; [|discriminate].
  destruct (emits_Application_dtor_calls (set_is_done app) w2 Logic.I)
    as (cs3 & Ht3 & _ & _ & Hcs3).
  intros [= <-]. exists app, cs1, cs2, cs3.
  split; [reflexivity|]. split; [now rewrite Ht3, Ht2, Ht1|].
  split; [now repeat split|]. split; [exact Hd|]. split; [exact Hq1|].
  split; [exact Hin|]. split; [reflexivity|].
  destruct Hd as (Hb & Hsrc & Himg).
  split; [rewrite Hp2, Hs2, Hsrc, Hwin; now repeat split|].
  rewrite Hcs3. unfold shutdown_calls. simpl.
  rewrite Himg, Hb, Hsrc, Hwin, Hgl, Hdev, Hctx.
  now destruct (stbi_load_result e) as [[? ?]|].
Qed.

(** X12: the exit status of the program: -1 when the construction throws;
    otherwise 0 as soon as a frame brings a quit or window-close event, and
    no exit as long as none does. *)
Theorem main_exit_status e fuel frames :
  fst (main e fuel frames initial_world)
  = match fst (Application_ctor e fuel (Some "Programming Fun App")
                 initial_world) with
    | Returns _ => if existsb quits frames then Some 0 else None
    | Throws _ => Some (-1)
    | OutOfFuel => None
    end.
Proof.
  unfold main.
  destruct (emits_Application_ctor_handles e fuel (Some "Programming Fun App")
              initial_world Logic.I) as (cs1 & _ & _ & H1).
  destruct (Application_ctor e fuel _ initial_world) as [[app|what|] w1];
    simpl in *; try reflexivity.
  destruct (H1 app eq_refl) as ((_ & _ & _ & _ & Hdone) & _).
  destruct (emits_main_loop_obs frames app Hdone w1 Logic.I)
    as (cs2 & _ & _ & Hret & _).
  destruct (main_loop frames app w1) as [o2 w2]. simpl in Hret. subst o2.
  now destruct (existsb quits frames).
Qed.

(** X13: in a run that ends with status 0, the frames up to the first one
    with a quit event, that one included, are each rendered and swapped
    once, on the window that was created, and the later frames not at all;
    the sources played are those of the buttons pressed in these frames,
    in order: the mono button plays the first source, the stereo button
    the second. *)
Theorem run_renders_and_plays e fuel frames w :
  main e fuel frames initial_world = (Some 0, w) ->
  swapped (trace w) = map (fun _ => SDL_CreateWindow_result e) (rendered frames)
  /\ played (trace w)
     = flat_map (asked (alGenSources_result e)) (rendered frames).
Proof.
  intros H.
  destruct (main_exit_0 e fuel frames w H)
    as (app & cs1 & cs2 & cs3 & _ & -> & _ & _ & (Hp1 & Hs1 & _) & _ & _
        & (Hp2 & Hs2 & _) & ->).
  unfold played, swapped in *. rewrite !filter_map_app, Hp1, Hs1, Hp2, Hs2.
  unfold shutdown_calls.
  destruct (stbi_load_result e); simpl; rewrite !app_nil_r; now split.
Qed.

Lemma run_renders_and_plays_witness :
  main env_ok 5 three_frames initial_world
  = (Some 0, snd (main env_ok 5 three_frames initial_world))
  /\ swapped (trace (snd (main env_ok 5 three_frames initial_world)))
     = map (fun _ => SDL_CreateWindow_result env_ok) (rendered three_frames)
  /\ played (trace (snd (main env_ok 5 three_frames initial_world)))
     = flat_map (asked (alGenSources_result env_ok)) (rendered three_frames).
Proof.
  assert (E : main env_ok 5 three_frames initial_world
              = (Some 0, snd (main env_ok 5 three_frames initial_world)))
    by (vm_compute; reflexivity).
  split; [exact E|].
  exact (run_renders_and_plays env_ok 5 three_frames _ E).
Defined.

(** X14: a run that ends with status 0 ends with the calls of the
    destructor, and these release the handles the run was given: the
    texture that was generated, if the image was loaded, and none
    otherwise; the two sources and the two buffers; the audio context and
    the device, null or not; the graphics context; the window.  No release
    call comes before them. *)
Theorem shutdown_releases_what_was_acquired e fuel frames w :
  main e fuel frames initial_world = (Some 0, w) ->
  exists before,
    trace w = before ++ shutdown_calls e
    /\ filter_map releases before = []
    /\ In (SDL_GL_CreateContext (SDL_CreateWindow_result e)
             (SDL_GL_CreateContext_result e)) before
    /\ In (alcOpenDevice (alcOpenDevice_result e)) before
    /\ In (alcCreateContext (alcOpenDevice_result e) (alcCreateContext_result e))
          before
    /\ In (alGenBuffers 2 (alGenBuffers_result e)) before
    /\ In (alGenSources 2 (alGenSources_result e)) before
    /\ (stbi_load_result e <> None ->
        In (glGenTextures (glGenTextures_result e)) before).
Proof.
  intros H.
  destruct (main_exit_0 e fuel frames w H)
    as (app & cs1 & cs2 & cs3 & _ & -> & _ & _ & (_ & _ & Hr1)
        & (I1 & I2 & I3 & I4 & I5 & I6) & _ & (_ & _ & Hr2) & ->).
  exists (cs1 ++ cs2). split; [reflexivity|].
  split; [now rewrite filter_map_app, Hr1, Hr2|].
  repeat split; try intros Hne; apply in_or_app; left; auto.
Qed.

Lemma shutdown_releases_what_was_acquired_witness :
  main env_no_image 5 two_frames initial_world
  = (Some 0, snd (main env_no_image 5 two_frames initial_world))
  /\ exists before,
       trace (snd (main env_no_image 5 two_frames initial_world))
       = before ++ shutdown_calls env_no_image
       /\ filter_map releases before = [].
Proof.
  assert (E : main env_no_image 5 two_frames initial_world
              = (Some 0, snd (main env_no_image 5 two_frames initial_world)))
    by (vm_compute; reflexivity).
  split; [exact E|].
  destruct (shutdown_releases_what_was_acquired env_no_image 5 two_frames _ E)
    as (before & H1 & H2 & _).
  exists before. split; [exact H1 | exact H2].
Defined.

End RunExtras.

(* ================================================================== *)
(** * Facts about the world a computation leaves *)
(* ================================================================== *)

Section Wp.

Import Fs Audio Eff App Obs.
Local Open Scope Z_scope.

Context {A : Type}.

Lemma wp_conseq (c : M A) (Q Q' : outcome A -> world -> Prop) w :
  (forall o w', Q o w' -> Q' o w') -> wp c Q w -> wp c Q' w.
Proof. unfold wp. auto. Qed.

Lemma wp_ret (a : A) Q w : Q (Returns a) w -> wp (ret a) Q w.
Proof. exact (fun H => H). Qed.

Lemma wp_throw what (Q : outcome A -> world -> Prop) w :
  Q (Throws what) w -> wp (throw what) Q w.
Proof. exact (fun H => H). Qed.

Lemma wp_out_of_fuel (Q : outcome A -> world -> Prop) w :
  Q OutOfFuel w -> wp out_of_fuel Q w.
Proof. exact (fun H => H). Qed.

Lemma wp_bind {B} (c : M A) (k : A -> M B) Q w :
  wp c (fun o w' =>
          match o with
          | Returns a => wp (k a) Q w'
          | Throws what => Q (Throws what) w'
          | OutOfFuel => Q OutOfFuel w'
          end) w ->
  wp (bind c k) Q w.
Proof.
  unfold wp, bind. now destruct (c w) as [[a|what|] w'].
Qed.

Lemma wp_throw_error_message message (Q : outcome A -> world -> Prop) w :
  Q (Throws message)
    (mkworld (trace w) (cerr w ++ [message]) (gWindowWidth w) (gWindowHeight w)
             (assets_folder w)) ->
  wp (throw_error_message message) Q w.
Proof. exact (fun H => H). Qed.

End Wp.

Section WpCalls.

Import Fs Audio Eff App Obs.
Local Open Scope Z_scope.

Lemma wp_emit c Q w :
  Q (Returns tt)
    (mkworld (trace w ++ [c]) (cerr w) (gWindowWidth w) (gWindowHeight w)
             (assets_folder w)) ->
  wp (emit c) Q w.
Proof. exact (fun H => H). Qed.

Lemma wp_set_window_size wh Q w :
  Q (Returns tt) (mkworld (trace w) (cerr w) (fst wh) (snd wh) (assets_folder w)) ->
  wp (set_window_size wh) Q w.
Proof. exact (fun H => H). Qed.

Lemma wp_get_world Q w : Q (Returns w) w -> wp get_world Q w.
Proof. exact (fun H => H). Qed.

Lemma wp_hint_gl e attr value Q w :
  Q (Returns tt)
    (mkworld (trace w ++ [SDL_GL_SetAttribute attr value])
       (cerr w ++ (if negb (SDL_GL_SetAttribute_result e attr =? 0)
                   then [String.append "Failed to Set GL Attribute: " (SDL_GetError e)]
                   else []))
       (gWindowWidth w) (gWindowHeight w) (assets_folder w)) ->
  wp (hint_gl e attr value) Q w.
Proof.
  unfold wp, hint_gl, bind, emit, print_cerr, ret.
  destruct (negb _); cbn [fst snd trace cerr gWindowWidth gWindowHeight assets_folder];
    [|rewrite app_nil_r]; exact (fun H => H).
Qed.

(** [get_base_path] adds look-up calls, may set the static, throws nothing
    but [not_found], and leaves the rest of the world alone. *)
Lemma wp_get_base_path e fuel Q w :
  (forall o cs af,
      forallb lookup cs = true ->
      (forall what, o = Throws what -> what = not_found) ->
      Q o (mkworld (trace w ++ cs) (cerr w) (gWindowWidth w) (gWindowHeight w) af)) ->
  wp (get_base_path e fuel) Q w.
Proof.
  intros H. unfold wp, get_base_path, find_assets_folder, bind, get_world,
    emit, ret, throw, out_of_fuel, set_assets_folder.
  cbn [fst snd]. destruct w as [t ce gw gh af].
  cbn [trace cerr gWindowWidth gWindowHeight assets_folder] in *.
  destruct af as [p|]; cbn.
  - specialize (H (Returns p) [] (Some p) eq_refl).
    rewrite app_nil_r in H. apply H. discriminate.
  - destruct (try_get_asset_path _ _ fuel (current_path _)) as [[found|]|]; cbn.
    + apply (H _ [_]); [reflexivity | discriminate].
    + destruct (try_get_asset_path _ _ fuel (base_path e)) as [[found|]|]; cbn;
        rewrite <- ?app_assoc; cbn.
      * apply (H _ [_; _; _]); [reflexivity | discriminate].
      * apply (H _ [_; _; _]); [reflexivity | now intros ? [= <-]].
      * apply (H _ [_; _]); [reflexivity | discriminate].
    + apply (H _ [_]); [reflexivity | discriminate].
Qed.

End WpCalls.

(** One step through a computation, keeping track of the world. *)
Ltac wp_step :=
  lazymatch goal with
  | |- Obs.wp (Eff.bind _ _) _ _ => apply wp_bind
  | |- Obs.wp (Eff.ret _) _ _ => apply wp_ret
  | |- Obs.wp (Eff.emit _) _ _ => apply wp_emit
  | |- Obs.wp (Eff.throw_error_message _) _ _ => apply wp_throw_error_message
  | |- Obs.wp (Eff.throw _) _ _ => apply wp_throw
  | |- Obs.wp Eff.out_of_fuel _ _ => apply wp_out_of_fuel
  | |- Obs.wp (Eff.set_window_size _) _ _ => apply wp_set_window_size
  | |- Obs.wp Eff.get_world _ _ => apply wp_get_world
  | |- Obs.wp (App.hint_gl _ _ _) _ _ => apply wp_hint_gl
  | |- Obs.wp (App.get_base_path _ _) _ _ =>
      apply wp_get_base_path; intros [?|?|] ? ? ? ?
  | |- Obs.wp (if ?b then _ else _) _ _ => destruct b eqn:?
  | |- Obs.wp (match ?x with _ => _ end) _ _ => destruct x eqn:?
  end;
  cbv beta iota;
  cbn [Eff.trace Eff.cerr Eff.gWindowWidth Eff.gWindowHeight Eff.assets_folder
       fst snd].

Ltac wp_run := repeat wp_step.

Section WorldExtras.

Import Fs Audio Eff App Obs Web Examples Cases.
Local Open Scope Z_scope.

Lemma last_cons {B} (x : B) l d : last (x :: l) d = last l x.
Proof.
  revert x d. induction l as [|y l IH]; intros x d; [reflexivity|].
  change (last (x :: y :: l) d) with (last (y :: l) d). now rewrite !IH.
Qed.

Lemma resized_last evs : forall size, resized evs size = last (resizes evs) size.
Proof.
  induction evs as [|ev evs IH]; intros size; [reflexivity|].
  destruct ev; simpl resized; simpl resizes; rewrite ?last_cons; apply IH.
Qed.

Lemma wp_updateWindowEvents evs : forall this w,
  wp (updateWindowEvents evs this)
     (fun _ w' =>
        (gWindowWidth w', gWindowHeight w')
        = resized evs (gWindowWidth w, gWindowHeight w)
        /\ cerr w' = cerr w /\ assets_folder w' = assets_folder w) w.
Proof.
  induction evs as [|ev evs IH]; intros this w; simpl.
  - wp_run. now repeat split.
  - do 2 wp_step. do 2 wp_step. apply wp_bind.
    destruct ev; unfold Demo_SetDisplaySize; wp_run;
      (eapply wp_conseq; [|apply IH]); cbv beta;
      cbn [trace cerr gWindowWidth gWindowHeight assets_folder fst snd];
      intros o w' H; destruct o; exact H.
Qed.

(** X15: a frame leaves the two globals at the size of its last resize
    event, after setting the viewport to the size of each resize event in
    turn; a frame without resize events leaves them as they were and sets
    no viewport.  [std::cerr] and the asset root are not touched. *)
Theorem Update_resizes f this w :
  exists cs,
    trace (snd (Update f this w)) = trace w ++ cs
    /\ viewports cs = resizes (events f)
    /\ (gWindowWidth (snd (Update f this w)), gWindowHeight (snd (Update f this w)))
       = last (resizes (events f)) (gWindowWidth w, gWindowHeight w)
    /\ cerr (snd (Update f this w)) = cerr w
    /\ assets_folder (snd (Update f this w)) = assets_folder w.
Proof.
  destruct (emits_Update_obs f this w Logic.I) as (cs & Ht & _ & _ & Hv & _).
  exists cs. split; [exact Ht|]. split; [exact Hv|].
  rewrite <- resized_last.
  assert (H : wp (Update f this)
                (fun _ w' =>
                   (gWindowWidth w', gWindowHeight w')
                   = resized (events f) (gWindowWidth w, gWindowHeight w)
                   /\ cerr w' = cerr w /\ assets_folder w' = assets_folder w) w).
  { unfold Update. apply wp_bind.
    eapply wp_conseq; [|apply wp_updateWindowEvents]. cbv beta.
    intros o w' (Hsz & Hce & Haf). destruct o; try now repeat split.
    unfold Demo_Draw, Demo_ImGuiDraw. wp_run; now repeat split. }
  exact H.
Qed.

(** X16: [setWindowSize] leaves the two globals at the sizes asked for,
    raised to 400 where they are smaller; it makes no call, writes nothing
    and never throws.  It answers with the resize flag set when a global
    has changed and with the flag as it was otherwise, so that asking
    again for the same size changes nothing. *)
Theorem setWindowSize_clamps sizeX sizeY flag w :
  let r := setWindowSize sizeX sizeY flag w in
  gWindowWidth (snd r) = Z.max 400 sizeX
  /\ gWindowHeight (snd r) = Z.max 400 sizeY
  /\ trace (snd r) = trace w /\ cerr (snd r) = cerr w
  /\ assets_folder (snd r) = assets_folder w
  /\ fst r = Returns (if (gWindowWidth w =? Z.max 400 sizeX)
                         && (gWindowHeight w =? Z.max 400 sizeY)
                      then flag else true)
  /\ forall flag', setWindowSize sizeX sizeY flag' (snd r) = (Returns flag', snd r).
Proof.
  cbv zeta. unfold setWindowSize, bind, get_world, set_window_size, ret.
  cbn [fst snd].
  assert (EX : (if sizeX <? 400 then 400 else sizeX) = Z.max 400 sizeX)
    by (destruct (Z.ltb_spec sizeX 400); lia).
  assert (EY : (if sizeY <? 400 then 400 else sizeY) = Z.max 400 sizeY)
    by (destruct (Z.ltb_spec sizeY 400); lia).
  rewrite EX, EY.
  rewrite (Z.eqb_sym (Z.max 400 sizeX)), (Z.eqb_sym (Z.max 400 sizeY)).
  destruct w as [t ce gw gh af].
  cbn [trace cerr gWindowWidth gWindowHeight assets_folder].
  destruct (Z.eqb_spec gw (Z.max 400 sizeX)) as [-> | Hx],
           (Z.eqb_spec gh (Z.max 400 sizeY)) as [-> | Hy];
    cbn; rewrite ?Z.eqb_refl; cbn; repeat split; intros flag';
    rewrite ?Z.eqb_refl; reflexivity.
Qed.

End WorldExtras.

Section CtorWorld.

Import Fs Audio Eff App Obs Examples Cases.
Local Open Scope Z_scope.

Lemma lookup_viewports cs : forallb lookup cs = true -> viewports cs = [].
Proof. apply filter_map_lookup. intros c. now destruct c. Qed.

(** The world a construction leaves: with the globals at the size of the
    window when it returns, with its message at the end of [std::cerr]
    when it throws through [throw_error_message]. *)
Lemma wp_Application_ctor e fuel title w :
  wp (Application_ctor e fuel title)
     (fun o w' =>
        match o with
        | Returns _ =>
            (gWindowWidth w', gWindowHeight w') = SDL_GetWindowSize_result e
            /\ exists cs, trace w' = trace w ++ cs
                          /\ viewports cs = [SDL_GetWindowSize_result e]
        | Throws what =>
            (what = not_found \/ exists said, cerr w' = said ++ [what])
        | OutOfFuel => True
        end) w.
Proof.
  unfold Application_ctor, setupSDLWindow, setupOpenGL, setupImGui, Demo_Setup,
    LoadTextureFromFile.
  wp_run.
  all: try exact I.
  all: try (right; eexists; reflexivity).
  all: try (left; now auto).
  all: (split; [now destruct (SDL_GetWindowSize_result e)|]).
  all: rewrite <- !app_assoc; eexists; (split; [reflexivity|]).
  all: repeat match goal with
         | H : forallb lookup ?cs = true |- _ =>
             apply lookup_viewports in H
         end.
  all: unfold viewports in *; calls_simpl;
    now destruct (SDL_GetWindowSize_result e).
Qed.

End CtorWorld.

Section CtorExtras.

Import Fs Audio Eff App Obs Examples Cases.
Local Open Scope Z_scope.

(** X17: a construction that returns leaves the two globals at the size
    [SDL_GetWindowSize] reports for the window, and the one viewport it
    sets, in [Demo::Setup], has that size, not the size the window was
    asked for. *)
Theorem construction_uses_the_window_size e fuel title w app w' :
  Application_ctor e fuel title w = (Returns app, w') ->
  (gWindowWidth w', gWindowHeight w') = SDL_GetWindowSize_result e
  /\ exists cs, trace w' = trace w ++ cs
                /\ viewports cs = [SDL_GetWindowSize_result e].
Proof.
  intros H. pose proof (wp_Application_ctor e fuel title w) as Hwp.
  unfold wp in Hwp. now rewrite H in Hwp.
Qed.

Lemma construction_uses_the_window_size_witness :
  Application_ctor env_ok 5 (Some "Programming Fun App") initial_world
  = (Returns (fst_app env_ok), world_constructed)
  /\ (gWindowWidth world_constructed, gWindowHeight world_constructed)
     = (800, 600)
  /\ exists cs, trace world_constructed = trace initial_world ++ cs
                /\ viewports cs = [(800, 600)].
Proof.
  assert (E : Application_ctor env_ok 5 (Some "Programming Fun App") initial_world
              = (Returns (fst_app env_ok), world_constructed))
    by (vm_compute; reflexivity).
  split; [exact E|].
  exact (construction_uses_the_window_size env_ok 5 _ initial_world _ _ E).
Defined.



Lemma map_filter_flat_map {B C} (p : B -> bool) (m : C) l :
  map (fun _ => m) (filter p l) = flat_map (fun b => if p b then [m] else []) l.
Proof.
  induction l as [|b l IH]; simpl; [reflexivity|].
  destruct (p b); simpl; now rewrite IH.
Qed.

(** X19: a hint the library refuses is not fatal: with SDL initialised and
    the window created, [setupSDLWindow] returns the window after the same
    calls, the ten hints in order among them, whatever the hints
    answered; each hint refused has added the one line to [std::cerr]. *)
Theorem refused_hints_are_not_fatal e title this w :
  0 <= SDL_Init_result e ->
  SDL_CreateWindow_result e <> nullptr ->
  setupSDLWindow e title this w
  = (Returns (mkApplication (demo this) (SDL_CreateWindow_result e)
                (gl_context this) (al_device this) (al_context this)
                (is_done this)),
     mkworld
       (trace w
        ++ SDL_Init (SDL_Init_result e)
           :: map (fun h => SDL_GL_SetAttribute (fst h) (snd h)) hinted
        ++ [SDL_CreateWindow title (gWindowWidth w) (gWindowHeight w)
              (SDL_CreateWindow_result e)])
       (cerr w
        ++ map (fun _ => String.append "Failed to Set GL Attribute: "
                           (SDL_GetError e))
               (refused e))
       (gWindowWidth w) (gWindowHeight w) (assets_folder w)).
Proof.
  intros Hinit Hwin.
  apply Z.ltb_ge in Hinit. apply Z.eqb_neq in Hwin.
  set (expected := (Returns _, _)).
  assert (H : wp (setupSDLWindow e title this)
                (fun o w' => (o, w') = expected) w).
  { unfold setupSDLWindow. rewrite Hinit, Hwin. wp_run.
    unfold expected. f_equal. f_equal.
    - unfold hinted. simpl. now rewrite <- !app_assoc.
    - unfold refused. rewrite map_filter_flat_map. unfold hinted.
      cbn [flat_map fst]. now rewrite <- !app_assoc, !app_nil_r. }
  unfold wp in H. now destruct (setupSDLWindow e title this w).
Qed.

Lemma refused_hints_are_not_fatal_witness :
  0 <= SDL_Init_result env_refusing
  /\ SDL_CreateWindow_result env_refusing <> nullptr
  /\ fst (setupSDLWindow env_refusing "t" Application_default initial_world)
     = Returns (mkApplication Demo_default 100 nullptr nullptr nullptr false)
  /\ cerr (snd (setupSDLWindow env_refusing "t" Application_default initial_world))
     = ["Failed to Set GL Attribute: error"; "Failed to Set GL Attribute: error"].
Proof.
  assert (H1 : 0 <= SDL_Init_result env_refusing) by (vm_compute; discriminate).
  assert (H2 : SDL_CreateWindow_result env_refusing <> nullptr) by discriminate.
  split; [exact H1|]. split; [exact H2|].
  rewrite (refused_hints_are_not_fatal env_refusing "t" Application_default
             initial_world H1 H2).
  split; vm_compute; reflexivity.
Defined.

End CtorExtras.

(* ================================================================== *)
(** * More about the audio clips of [Demo::Setup] *)
(* ================================================================== *)

Section SetupExtras.

Import Fs Audio Eff App Obs Examples Cases.
Local Open Scope Z_scope.


Lemma lookup_not_decode cs file samples :
  forallb lookup cs = true -> ~ In (stb_vorbis_decode_filename file samples) cs.
Proof.
  intros H Hin. rewrite forallb_forall in H. specialize (H _ Hin).
  discriminate H.
Qed.





End SetupExtras.

(* ================================================================== *)
(** * The texture, from the file to the screen *)
(* ================================================================== *)

Section ShownFacts.

Import Fs Audio Eff App Obs.
Local Open Scope Z_scope.

Lemma lookup_shown cs :
  forallb lookup cs = true -> shown cs = [] /\ uploaded cs = [].
Proof.
  intros H. split; apply filter_map_lookup; try exact H;
    intros c; now destruct c.
Qed.

Lemma emits_updateWindowEvents_shown evs : forall this,
  emits_from anywhere (updateWindowEvents evs this)
    (fun o cs =>
       (exists this', o = Returns this' /\ demo this' = demo this)
       /\ shown cs = [] /\ uploaded cs = []).
Proof.
  induction evs as [|event evs IH]; intros this; simpl.
  - emits_run. split; [now exists this | now split].
  - do 2 emits_step. do 2 emits_step. apply emits_bind.
    destruct event; unfold Demo_SetDisplaySize; emits_run;
      (eapply emits_conseq; [|apply IH]);
      intros o cs (Ho & Hs & Hu); unfold shown, uploaded in *;
      rewrite !filter_map_app, ?Hs, ?Hu; (split; [exact Ho | now split]).
Qed.

Lemma emits_Update_shown f this :
  emits_from anywhere (Update f this)
    (fun o cs =>
       (exists this', o = Returns this' /\ demo this' = demo this)
       /\ shown cs = (if loaded (example_image (demo this))
                      then [(handle (example_image (demo this)),
                             width (example_image (demo this)),
                             height (example_image (demo this)))]
                      else [])
       /\ uploaded cs = []).
Proof.
  unfold Update. apply emits_bind.
  eapply emits_conseq; [|apply emits_updateWindowEvents_shown].
  intros o cs ((this' & -> & Hd) & Hs & Hu).
  unfold Demo_Draw, Demo_ImGuiDraw. rewrite Hd. emits_run.
  all: unfold shown, uploaded in *; rewrite !filter_map_app, ?Hs, ?Hu;
    simpl in *;
    repeat match goal with
      | H : _ = true |- _ => rewrite H
      | H : _ = false |- _ => rewrite H
      end;
    simpl; (split; [now exists this' | now split]).
Qed.

Lemma emits_main_loop_shown frames : forall application,
  is_done application = false ->
  emits_from anywhere (main_loop frames application)
    (fun _ cs =>
       shown cs
       = (if loaded (example_image (demo application))
          then map (fun _ => (handle (example_image (demo application)),
                              width (example_image (demo application)),
                              height (example_image (demo application))))
                   (rendered frames)
          else [])
       /\ uploaded cs = []).
Proof.
  induction frames as [|f frames IH]; intros application Hd; simpl;
    unfold IsDone; rewrite Hd; simpl.
  - emits_run. now destruct (loaded _).
  - apply emits_bind.
    intros w Hw.
    destruct (emits_Update_obs f application w Hw) as (cs & Ht & _ & Ho & _).
    destruct (emits_Update_shown f application w Hw)
      as (cs' & Ht' & _ & _ & Hs & Hu).
    rewrite Ht in Ht'. apply app_inv_head in Ht'. subst cs'.
    exists cs. split; [exact Ht|]. split; [exact I|].
    rewrite Ho. clear Ho. cbv beta iota.
    destruct (quits f) eqn:Hq.
    + destruct frames; simpl; emits_run; rewrite app_nil_r, Hs;
        now destruct (loaded _).
    + eapply emits_conseq; [|apply (IH application Hd)].
      intros o' cs' (Hs' & Hu').
      unfold shown, uploaded in *.
      rewrite !filter_map_app, Hs, Hu, Hs', Hu'.
      now destruct (loaded _).
Qed.

Lemma lookup_intervals cs : forallb lookup cs = true -> intervals cs = [].
Proof. apply filter_map_lookup. intros c. now destruct c. Qed.

(** The construction draws no texture; when it returns it has uploaded the
    one image it has decoded and has asked for adaptive vsync, and for
    plain vsync where that was refused. *)
Lemma emits_Application_ctor_shown e fuel title :
  emits_from anywhere (Application_ctor e fuel title)
    (fun o cs =>
       shown cs = []
       /\ forall app, o = Returns app ->
            uploaded cs = match stbi_load_result e with
                          | Some size => [size]
                          | None => []
                          end
            /\ intervals cs
               = ADAPTIVE_VSYNC
                 :: (if SDL_GL_SetSwapInterval_result e =? 0 then []
                     else [VSYNC])).
Proof.
  unfold Application_ctor, setupSDLWindow, setupOpenGL, setupImGui, Demo_Setup,
    LoadTextureFromFile.
  repeat (first [ apply emits_hint_gl
                | apply emits_get_base_path_lookup; intros [?|?|] ? ?
                | emits_step ]).
  all: repeat match goal with
         | H : forallb lookup ?cs = true |- _ =>
             destruct (lookup_shown cs H) as (? & ?);
             pose proof (lookup_intervals cs H); clear H
         end.
  all: split; [unfold shown in *; now calls_simpl|].
  all: intros app Happ; try discriminate Happ.
  all: split; [unfold uploaded in *; now calls_simpl|].
  all: unfold intervals in *; calls_simpl;
    destruct (SDL_GL_SetSwapInterval_result e =? 0);
    first [ reflexivity
          | match goal with
            | H : negb _ = _ |- _ => cbn [negb] in H; discriminate H
            end ].
Qed.

End ShownFacts.

Section ShownExtras.

Import Fs Audio Eff App Obs Examples Cases.
Local Open Scope Z_scope.

(** X22: the texture, from the file to the screen: in a run that ends with
    status 0 the image is uploaded once, with the width and height the
    decoder gave, and every rendered frame draws the texture generated for
    it with that width and height; when the image is not decoded nothing is
    uploaded and no frame draws a texture. *)
Theorem image_is_shown_as_decoded e fuel frames w :
  main e fuel frames initial_world = (Some 0, w) ->
  match stbi_load_result e with
  | Some (image_width, image_height) =>
      uploaded (trace w) = [(image_width, image_height)]
      /\ shown (trace w)
         = map (fun _ => (glGenTextures_result e, image_width, image_height))
               (rendered frames)
  | None => uploaded (trace w) = [] /\ shown (trace w) = []
  end.
Proof.
  intros H.
  destruct (main_exit_0 e fuel frames w H)
    as (app & _ & _ & _ & Hctor & _ & (_ & _ & _ & _ & Hdone)
        & (_ & _ & Himg) & _).
  destruct (emits_Application_ctor_shown e fuel (Some "Programming Fun App")
              initial_world Logic.I) as (cs1' & Ht1 & _ & Hs1 & Hu1).
  destruct (Hu1 app Hctor) as [Hu1' _]. clear Hu1. rename Hu1' into Hu1.
  revert H. unfold main.
  destruct (Application_ctor e fuel _ initial_world) as [o1 w1].
  simpl in Hctor, Ht1. subst o1.
  destruct (emits_main_loop_shown frames app Hdone w1 Logic.I)
    as (cs2' & Ht2 & _ & Hs2 & Hu2).
  destruct (main_loop frames app w1) as [[[app'|]|what|] w2]; try discriminate.
  destruct (emits_Application_dtor_calls app' w2 Logic.I)
    as (cs3' & Ht3 & _ & _ & Hcs3).
  intros [= Hw]. simpl in Ht2.
  assert (Htr : trace w = ((cs1' ++ cs2') ++ cs3')).
  { rewrite <- Hw, Ht3, Ht2, Ht1. reflexivity. }
  clear Hw.
  assert (Hs3 : shown cs3' = [] /\ uploaded cs3' = []).
  { rewrite Hcs3.
    destruct (loaded (example_image (demo app'))); split; reflexivity. }
  destruct Hs3 as [Hs3 Hu3].
  unfold shown, uploaded in *.
  rewrite Htr, !filter_map_app, Hs1, Hs2, Hs3, Hu1, Hu2, Hu3, Himg.
  destruct (stbi_load_result e) as [[iw ih]|]; simpl;
    rewrite ?app_nil_r; now split.
Qed.

Lemma image_is_shown_as_decoded_witness :
  main env_ok 5 three_frames initial_world
  = (Some 0, snd (main env_ok 5 three_frames initial_world))
  /\ uploaded (trace (snd (main env_ok 5 three_frames initial_world)))
     = [(64, 32)]
  /\ shown (trace (snd (main env_ok 5 three_frames initial_world)))
     = [(7, 64, 32); (7, 64, 32)].
Proof.
  assert (E : main env_ok 5 three_frames initial_world
              = (Some 0, snd (main env_ok 5 three_frames initial_world)))
    by (vm_compute; reflexivity).
  split; [exact E|].
  exact (image_is_shown_as_decoded env_ok 5 three_frames _ E).
Defined.

(** X23: a construction that returns has asked for adaptive vsync first,
    and for plain vsync after that exactly when the adaptive one was
    refused; a refusal is not fatal, and no other swap interval is set. *)
Theorem vsync_falls_back e fuel title w app w' :
  Application_ctor e fuel title w = (Returns app, w') ->
  exists cs,
    trace w' = trace w ++ cs
    /\ intervals cs
       = if SDL_GL_SetSwapInterval_result e =? 0
         then [ADAPTIVE_VSYNC] else [ADAPTIVE_VSYNC; VSYNC].
Proof.
  intros H.
  destruct (emits_Application_ctor_shown e fuel title w Logic.I)
    as (cs & Ht & _ & _ & Hi).
  rewrite H in Ht, Hi. simpl in Ht, Hi.
  destruct (Hi app eq_refl) as [_ Hv].
  exists cs. split; [exact Ht|]. rewrite Hv.
  now destruct (SDL_GL_SetSwapInterval_result e =? 0).
Qed.

Lemma vsync_falls_back_witness :
  Application_ctor env_no_adaptive_vsync 5 (Some "Programming Fun App")
    initial_world
  = (Returns (fst_app env_no_adaptive_vsync),
     snd (Application_ctor env_no_adaptive_vsync 5 (Some "Programming Fun App")
            initial_world))
  /\ exists cs,
       trace (snd (Application_ctor env_no_adaptive_vsync 5
                     (Some "Programming Fun App") initial_world))
       = trace initial_world ++ cs
       /\ intervals cs = [-1; 1].
Proof.
  assert (E : Application_ctor env_no_adaptive_vsync 5
                (Some "Programming Fun App") initial_world
              = (Returns (fst_app env_no_adaptive_vsync),
                 snd (Application_ctor env_no_adaptive_vsync 5
                        (Some "Programming Fun App") initial_world)))
    by (vm_compute; reflexivity).
  split; [exact E|].
  exact (vsync_falls_back env_no_adaptive_vsync 5 _ initial_world _ _ E).
Defined.

End ShownExtras.
